(** * rebalance_marcos: contribution allocator, simulators, goal solvers

    Shallow embedding of [src/rebalance_marcos.py].

    Numbers.  Python [int] is [Z].  Python [float] is modelled by the exact
    rationals [Q]: every arithmetic operation of the source is the exact
    operation, and two numbers are the same number when they are [Qeq]
    ([==]).  Rounding error, infinities and NaN of binary64 are outside
    this model.

    The only operation of the source that leaves the rationals is
    [x ** (1 / 12)], evaluated by the language runtime.  It is a parameter
    [pow_twelfth] of the simulators; theorems that need a fact about it say
    which one.

    Exceptions.  A function that can raise returns a [result]. *)

From Stdlib Require Import ZArith QArith Qround Qabs List String Bool Lia Lqa.
From Stdlib Require Import Qpower Permutation.
Import ListNotations.

Open Scope Q_scope.

(** ** The pieces of the Python runtime the source uses *)

Inductive exn : Type :=
| ValueError (msg : string)
| KeyError (key : string).

Inductive result (A : Type) : Type :=
| Ok (a : A)
| Raise (e : exn).

Arguments Ok {A} a.
Arguments Raise {A} e.

Definition bind {A B : Type} (c : result A) (k : A -> result B) : result B :=
  match c with
  | Ok a => k a
  | Raise e => Raise e
  end.

Notation "x <- c ;; k" := (bind c (fun x => k))
  (at level 61, c at next level, right associativity).
Notation "' pat <- c ;; k" := (bind c (fun x => match x with pat => k end))
  (at level 61, pat pattern, c at next level, right associativity).

(** [a < b] on floats, as a boolean. *)
Definition Qlt_bool (a b : Q) : bool := negb (Qle_bool b a).

(** [max(a, b)]: the first argument unless the second is strictly larger. *)
Definition py_max (a b : Q) : Q := if Qlt_bool a b then b else a.

(** [round(x)] with one argument: the nearest integer, ties to the even one. *)
Definition py_round (x : Q) : Z :=
  let f := Qfloor x in
  match ((x - inject_Z f) ?= (1 # 2))%Q with
  | Lt => f
  | Gt => (f + 1)%Z
  | Eq => if Z.even f then f else (f + 1)%Z
  end.

(** [sum(xs)] on floats and on ints: a left fold from 0. *)
Definition py_sum (xs : list Q) : Q := fold_left Qplus xs 0.
Definition py_sum_int (xs : list Z) : Z := fold_left Z.add xs 0%Z.

(** [range(n)] and [range(a, b)]. *)
Definition range (n : Z) : list Z := map Z.of_nat (seq 0 (Z.to_nat n)).
Definition range_from (a b : Z) : list Z :=
  map (fun i => (a + Z.of_nat i)%Z) (seq 0 (Z.to_nat (b - a))).

(** A [dict] with string keys, in insertion order.  A Python dict never holds
    a key twice ([wf_dict]); the theorems below hold without assuming it. *)
Definition dict (V : Type) : Type := list (string * V).

Definition keys {V} (d : dict V) : list string := map fst d.
Definition values {V} (d : dict V) : list V := map snd d.
Definition wf_dict {V} (d : dict V) : Prop := NoDup (keys d).

Fixpoint dict_find {V} (d : dict V) (k : string) : option V :=
  match d with
  | [] => None
  | (k', v) :: rest => if String.eqb k k' then Some v else dict_find rest k
  end.

(** [d[k]] *)
Definition dict_get {V} (d : dict V) (k : string) : result V :=
  match dict_find d k with
  | Some v => Ok v
  | None => Raise (KeyError k)
  end.

(** [d.get(k, default)] *)
Definition dict_get_default {V} (d : dict V) (k : string) (default : V) : V :=
  match dict_find d k with
  | Some v => v
  | None => default
  end.

(** [d[k] = v]: overwrite in place, or insert at the end. *)
Fixpoint dict_set {V} (d : dict V) (k : string) (v : V) : dict V :=
  match d with
  | [] => [(k, v)]
  | (k', v') :: rest =>
      if String.eqb k k' then (k', v) :: rest else (k', v') :: dict_set rest k v
  end.

(** [set(a) != set(b)] is [negb (same_key_set a b)]. *)
Definition mem_key (k : string) (ks : list string) : bool :=
  existsb (String.eqb k) ks.
Definition same_key_set (a b : list string) : bool :=
  forallb (fun k => mem_key k b) a && forallb (fun k => mem_key k a) b.

(** [max(d, key=lambda k: d[k])]: the first key whose value is maximal. *)
Fixpoint max_key_from (best : string) (best_val : Z) (rest : dict Z) : string :=
  match rest with
  | [] => best
  | (k, v) :: rest' =>
      if (best_val <? v)%Z then max_key_from k v rest'
      else max_key_from best best_val rest'
  end.

Definition py_max_key (d : dict Z) : result string :=
  match d with
  | [] => Raise (ValueError "max() arg is an empty sequence")
  | (k, v) :: rest => Ok (max_key_from k v rest)
  end.

(** A [for k, v in items: acc[k] = f(k, v)] loop that fills a dict. *)
Fixpoint fill_dict {V W} (f : string -> V -> result W)
    (items : dict V) (acc : dict W) : result (dict W) :=
  match items with
  | [] => Ok acc
  | (k, v) :: rest => w <- f k v ;; fill_dict f rest (dict_set acc k w)
  end.

(** A dict comprehension [{k: f(k, v) for k, v in items}] whose body can
    raise. *)
Fixpoint comprehension {V W} (f : string -> V -> result W)
    (items : dict V) : result (dict W) :=
  match items with
  | [] => Ok []
  | (k, v) :: rest =>
      w <- f k v ;; tail <- comprehension f rest ;; Ok ((k, w) :: tail)
  end.

(** ** Portfolio *)

Record Portfolio : Type := {
  holdings : dict Q;
  targets : dict Q;
  asset_types : option (dict string)
}.

Definition total_value (p : Portfolio) : Q := py_sum (values (holdings p)).

Definition current_weights (p : Portfolio) : dict Q :=
  let total := total_value p in
  if Qeq_bool total 0 then map (fun '(k, _) => (k, 0)) (holdings p)
  else map (fun '(k, v) => (k, v / total)) (holdings p).

(** ** compute_contribution_plan *)

(** Body of the first loop: the amount one asset still needs. *)
Definition needed_for (p : Portfolio) (total_after rebalance_threshold : Q)
    (current_w : dict Q) (asset : string) (target_w : Q) : result Q :=
  let target_value := target_w * total_after in
  current_value <- dict_get (holdings p) asset ;;
  if Qlt_bool 0 rebalance_threshold then
    let curr_weight := dict_get_default current_w asset 0 in
    let diff := Qabs (curr_weight - target_w) in
    if Qlt_bool diff rebalance_threshold then
      Ok (py_max 0 (target_value - current_value))
    else
      Ok (py_max 0 (target_value - current_value))
  else
    Ok (py_max 0 (target_value - current_value)).

(** Body of the second loop: the share of the contribution of one asset. *)
Definition share_for (total_needed monthly_contribution : Q)
    (asset : string) (needed : Q) : result Q :=
  let share := if Qeq_bool total_needed 0 then 0 else needed / total_needed in
  Ok (share * monthly_contribution).

(** The first loop: [needed_raw]. *)
Definition compute_needed_raw (p : Portfolio)
    (monthly_contribution rebalance_threshold : Q) : result (dict Q) :=
  let total_before := total_value p in
  let total_after := total_before + monthly_contribution in
  let current_w := current_weights p in
  fill_dict (needed_for p total_after rebalance_threshold current_w)
    (targets p) [].

(** The plan maps an asset to a number; the integer amounts of the rounded
    branch are injected into [Q]. *)
Definition compute_contribution_plan (p : Portfolio)
    (monthly_contribution rebalance_threshold : Q) : result (dict Q) :=
  if negb (same_key_set (keys (holdings p)) (keys (targets p))) then
    Raise (ValueError "Las claves de holdings y targets deben coincidir.")
  else
    needed_raw <- compute_needed_raw p monthly_contribution
                    rebalance_threshold ;;
    let total_needed := py_sum (values needed_raw) in
    if Qeq_bool total_needed 0 then
      comprehension
        (fun asset _ =>
           t <- dict_get (targets p) asset ;; Ok (monthly_contribution * t))
        (holdings p)
    else
      contributions <- fill_dict (share_for total_needed monthly_contribution)
                         needed_raw [] ;;
      let contributions : dict Z :=
        map (fun '(asset, amount) => (asset, py_round amount)) contributions in
      let diff := py_round (monthly_contribution
                            - inject_Z (py_sum_int (values contributions))) in
      contributions <-
        (if negb (diff =? 0)%Z then
           biggest <- py_max_key contributions ;;
           old <- dict_get contributions biggest ;;
           Ok (dict_set contributions biggest (old + diff)%Z)
         else Ok contributions) ;;
      Ok (map (fun '(asset, amount) => (asset, inject_Z amount)) contributions).

(** ** Simulators and goal solvers *)

Section Simulators.

(** [pow_twelfth x] stands for [x ** (1 / 12)]. *)
Variable pow_twelfth : Q -> Q.

Definition simulate_dca_ramp (initial_monthly final_monthly : Q) (years : Z)
    (annual_return initial_value : Q) : result (Q * list Q) :=
  let months := (years * 12)%Z in
  if (months <=? 0)%Z then Raise (ValueError "years debe ser > 0")
  else
    let r_m := pow_twelfth (1 + annual_return) - 1 in
    Ok (fold_left
          (fun '(value, monthly_values) m =>
             let contrib :=
               if (months =? 1)%Z then final_monthly
               else initial_monthly
                    + (final_monthly - initial_monthly)
                      * (inject_Z m / inject_Z (months - 1)) in
             let value := value + contrib in
             let value := value * (1 + r_m) in
             (value, monthly_values ++ [value]))
          (range months) (initial_value, [])).

(** [monthly_contribution] is annotated [int]; the body works on any number
    and the integer callers pass is injected into [Q]. *)
Definition simulate_constant_plan (current_total monthly_contribution : Q)
    (years : Z) (annual_return extra_savings : Q) : result (Q * list Q) :=
  if (years <=? 0)%Z then Raise (ValueError "years debe ser > 0")
  else
    let months := (years * 12)%Z in
    let r_m := pow_twelfth (1 + annual_return) - 1 in
    let value := current_total + extra_savings in
    Ok (fold_left
          (fun '(value, monthly_values) _ =>
             let value := value + monthly_contribution in
             let value := value * (1 + r_m) in
             (value, monthly_values ++ [value]))
          (range months) (value, [])).

(** The search loop both solvers run: [n] halvings of [[low, high]]. *)
Fixpoint bisection (net_final : Q -> result Q) (objetivo_final : Q) (n : nat)
    (low high : Q) : result (Q * Q) :=
  match n with
  | O => Ok (low, high)
  | S n' =>
      let mid := (low + high) / 2 in
      net_val <- net_final mid ;;
      if Qlt_bool net_val objetivo_final
      then bisection net_final objetivo_final n' mid high
      else bisection net_final objetivo_final n' low mid
  end.

(** The closure [net_final_with_monthly] of
    [required_constant_monthly_for_goal], with the variables it captures. *)
Definition net_final_with_monthly (current_total : Q) (years : Z)
    (annual_return extra_savings tax_rate : Q) (months : Z) (C : Q)
    : result Q :=
  let C_int := py_round C in
  let C_int := if (C_int <? 0)%Z then 0%Z else C_int in
  '(final_value, _) <- simulate_constant_plan current_total (inject_Z C_int)
                         years annual_return extra_savings ;;
  let principal_total :=
    current_total + extra_savings + inject_Z (C_int * months) in
  let gain := py_max 0 (final_value - principal_total) in
  let tax := tax_rate * gain in
  let net_final := final_value - tax in
  Ok net_final.

Definition required_constant_monthly_for_goal (current_total objetivo_final : Q)
    (years : Z) (annual_return extra_savings tax_rate : Q) : result Z :=
  if (years <=? 0)%Z then Raise (ValueError "years debe ser > 0")
  else if Qlt_bool annual_return 0 then
    Raise (ValueError "annual_return no puede ser negativo")
  else if negb (Qle_bool 0 tax_rate && Qle_bool tax_rate 1) then
    Raise (ValueError "tax_rate debe estar entre 0 y 1")
  else
    let months := (years * 12)%Z in
    let net_final :=
      net_final_with_monthly current_total years annual_return extra_savings
        tax_rate months in
    net0 <- net_final 0 ;;
    if Qle_bool objetivo_final net0 then Ok 0%Z
    else
      let low := 0 in
      let high :=
        py_max (objetivo_final / inject_Z (Z.max months 1) * 2) 5000 in
      '(_, high) <- bisection net_final objetivo_final 40 low high ;;
      Ok (py_round high).

(** The closure [net_final_con_final_monthly] of
    [required_growing_monthlies_for_goal], with the variables it captures. *)
Definition net_final_con_final_monthly (current_total : Q) (years : Z)
    (annual_return initial_monthly extra_savings tax_rate : Q)
    (months_total : Z) (final_monthly : Q) : result Q :=
  '(val, _) <- simulate_dca_ramp initial_monthly final_monthly years
                 annual_return (current_total + extra_savings) ;;
  let contrib_total :=
    inject_Z months_total * (initial_monthly + final_monthly) / 2 in
  let principal_total := current_total + extra_savings + contrib_total in
  let gain := py_max 0 (val - principal_total) in
  let tax := tax_rate * gain in
  let net_final := val - tax in
  Ok net_final.

(** One entry of [resumen_anual]: a dict with the keys year, start, end, avg. *)
Definition resumen_entry (initial_monthly : Q)
    (final_monthly_aprox months_total anio : Z) : dict Z :=
  let start_idx := ((anio - 1) * 12)%Z in
  let end_idx := (anio * 12 - 1)%Z in
  let end_idx := if (months_total <=? end_idx)%Z then (months_total - 1)%Z
                 else end_idx in
  let ramp_at (idx : Z) : Z :=
    py_round (initial_monthly
              + (inject_Z final_monthly_aprox - initial_monthly)
                * (inject_Z idx / inject_Z (months_total - 1))) in
  let start_month := if (1 <? months_total)%Z then ramp_at start_idx
                     else final_monthly_aprox in
  let end_month := if (1 <? months_total)%Z then ramp_at end_idx
                   else final_monthly_aprox in
  let avg_month := py_round (inject_Z (start_month + end_month) / 2) in
  [("year"%string, anio); ("start"%string, start_month);
   ("end"%string, end_month); ("avg"%string, avg_month)].

Definition required_growing_monthlies_for_goal
    (current_total objetivo_final : Q) (years : Z)
    (annual_return initial_monthly extra_savings tax_rate : Q)
    : result (Z * list (dict Z)) :=
  if (years <=? 0)%Z then Raise (ValueError "years debe ser > 0")
  else if Qlt_bool annual_return 0 then
    Raise (ValueError "annual_return no puede ser negativo")
  else if negb (Qle_bool 0 tax_rate && Qle_bool tax_rate 1) then
    Raise (ValueError "tax_rate debe estar entre 0 y 1")
  else
    let months_total := (years * 12)%Z in
    let net_final :=
      net_final_con_final_monthly current_total years annual_return
        initial_monthly extra_savings tax_rate months_total in
    let low := 0 in
    let high := py_max (initial_monthly * 10) 5000 in
    '(low, high) <- bisection net_final objetivo_final 30 low high ;;
    let final_monthly_aprox := py_round ((low + high) / 2) in
    let resumen_anual :=
      map (resumen_entry initial_monthly final_monthly_aprox months_total)
          (range_from 1 (years + 1)) in
    Ok (final_monthly_aprox, resumen_anual).

End Simulators.

(** ** Vocabulary of the statements *)

(** A number of the plan is a whole amount. *)
Definition is_integer (q : Q) : Prop := inject_Z (Qfloor q) == q.

(** [x] lies exactly halfway between two consecutive integers. *)
Definition halfway (x : Q) : Prop := x - inject_Z (Qfloor x) == 1 # 2.

(** Two traces hold the same numbers. *)
Definition same_trace (t1 t2 : list Q) : Prop := Forall2 Qeq t1 t2.

(** Month by month, [tr] is obtained from [start] by adding the contribution
    of the month and then applying the growth of the month. *)
Definition month_steps (start : Q) (contrib : nat -> Q) (r_m : Q)
    (tr : list Q) : Prop :=
  forall m, (m < List.length tr)%nat ->
    nth m tr 0 = (nth m (start :: tr) 0 + contrib m) * (1 + r_m).

(** The contribution of month [m] of a linear ramp over [months] months. *)
Definition ramp_contribution (initial_monthly final_monthly : Q) (months : Z)
    (m : nat) : Q :=
  initial_monthly
  + (final_monthly - initial_monthly)
    * (inject_Z (Z.of_nat m) / inject_Z (months - 1)).

(** The values a month loop appends, and the value it ends on, for growth
    factor [g], from [value], over the month indices [ms]. *)
Fixpoint trace_from (g : Q) (contrib : Z -> Q) (ms : list Z) (value : Q)
    : list Q :=
  match ms with
  | [] => []
  | m :: ms' =>
      let value' := (value + contrib m) * g in
      value' :: trace_from g contrib ms' value'
  end.

Fixpoint final_from (g : Q) (contrib : Z -> Q) (ms : list Z) (value : Q) : Q :=
  match ms with
  | [] => value
  | m :: ms' => final_from g contrib ms' ((value + contrib m) * g)
  end.

(** The two key sets hold the same keys. *)
Definition key_sets_equal (a b : list string) : Prop :=
  forall k, In k a <-> In k b.

(** The call raises the error of an invalid input. *)
Definition raises_invalid_input {A} (r : result A) : Prop :=
  exists msg, r = Raise (ValueError msg).

(** The call returns a result. *)
Definition returns {A} (r : result A) : Prop := exists a, r = Ok a.

(** The precondition of a goal solver is violated. *)
Definition goal_inputs_invalid (years : Z) (annual_return tax_rate : Q)
    : Prop :=
  (years <= 0)%Z \/ annual_return < 0 \/ tax_rate < 0 \/ 1 < tax_rate.

(** The integer amounts of the rounded branch, as numbers of the plan. *)
Definition inject_amounts (d : dict Z) : dict Q :=
  map (fun '(asset, amount) => (asset, inject_Z amount)) d.

(** The growth factor [1 + r_m] of one month. *)
Definition growth (pow_twelfth : Q -> Q) (annual_return : Q) : Q :=
  1 + (pow_twelfth (1 + annual_return) - 1).

(** A rational stand-in for the twelfth root, to run the simulators on
    concrete inputs: the tangent of [x ** (1 / 12)] at 1. *)
Definition pow_twelfth_tangent (x : Q) : Q := 1 + (x - 1) / 12.

(** Concrete portfolios. *)
Definition mk_portfolio (h t : dict Q) : Portfolio :=
  {| holdings := h; targets := t; asset_types := None |}.

(** Nothing held, targets 25% and 75%. *)
Definition quarter_portfolio : Portfolio :=
  mk_portfolio [("A"%string, 0); ("B"%string, 0)]
               [("A"%string, 1 # 4); ("B"%string, 3 # 4)].

(** Both assets at their target value once 20 is added; targets 50% and
    49.21875%. *)
Definition caught_up_portfolio : Portfolio :=
  mk_portfolio [("A"%string, 1280); ("B"%string, 1260)]
               [("A"%string, 1 # 2); ("B"%string, 63 # 128)].

(** Nothing held, eight assets at 12.5% each. *)
Definition eight_equal_assets : Portfolio :=
  mk_portfolio
    (map (fun k => (k, 0))
       ["A"; "B"; "C"; "D"; "E"; "F"; "G"; "H"]%string)
    (map (fun k => (k, 1 # 8))
       ["A"; "B"; "C"; "D"; "E"; "F"; "G"; "H"]%string).

(** 500 and 500 held, targets 50% each. *)
Definition balanced_portfolio : Portfolio :=
  mk_portfolio [("A"%string, 500); ("B"%string, 500)]
               [("A"%string, 1 # 2); ("B"%string, 1 # 2)].

(** 900 and 100 held, targets 50% each. *)
Definition uneven_portfolio : Portfolio :=
  mk_portfolio [("A"%string, 900); ("B"%string, 100)]
               [("A"%string, 1 # 2); ("B"%string, 1 # 2)].

(** Every number of the dict is at least 0. *)
Definition nonnegative_values (d : dict Q) : Prop :=
  Forall (fun v => 0 <= v) (values d).

(** Month after month the value never goes down. *)
Definition never_decreases (start : Q) (tr : list Q) : Prop :=
  forall m, (m < List.length tr)%nat -> nth m (start :: tr) 0 <= nth m tr 0.

(** ** Runtime lemmas *)

Lemma Qlt_bool_iff (a b : Q) : Qlt_bool a b = true <-> a < b.
Proof.
  unfold Qlt_bool. rewrite negb_true_iff, <- not_true_iff_false, Qle_bool_iff.
  split; [apply Qnot_le_lt | apply Qlt_not_le].
Qed.

Lemma Qlt_bool_false_iff (a b : Q) : Qlt_bool a b = false <-> b <= a.
Proof.
  unfold Qlt_bool. now rewrite negb_false_iff, Qle_bool_iff.
Qed.

Lemma fill_dict_ext {V W} (f g : string -> V -> result W) items acc :
  (forall k v, f k v = g k v) -> fill_dict f items acc = fill_dict g items acc.
Proof.
  intros E. revert acc. induction items as [|[k v] rest IH]; intros acc; simpl.
  - reflexivity.
  - rewrite E. destruct (g k v); simpl; auto.
Qed.

(** ** The threshold parameter *)

Lemma needed_for_threshold p total_after th cw asset target_w :
  needed_for p total_after th cw asset target_w
  = needed_for p total_after 0 cw asset target_w.
Proof.
  unfold needed_for. destruct (dict_get (holdings p) asset); simpl; auto.
  destruct (Qlt_bool 0 th); auto.
  destruct (Qlt_bool _ th); auto.
Qed.

(** C3: whatever the threshold, the plan is the plan computed with threshold
    0: the parameter has no effect on the result (a raised error included). *)
Theorem rebalance_threshold_no_effect (p : Portfolio)
    (monthly_contribution rebalance_threshold : Q) :
  compute_contribution_plan p monthly_contribution rebalance_threshold
  = compute_contribution_plan p monthly_contribution 0.
Proof.
  unfold compute_contribution_plan, compute_needed_raw.
  destruct (negb _); auto.
  erewrite fill_dict_ext; [reflexivity|].
  intros k v. apply needed_for_threshold.
Qed.

(** ** Sums *)

Lemma fold_Qplus_shift (l : list Q) (a : Q) :
  fold_left Qplus l a == a + py_sum l.
Proof.
  unfold py_sum. revert a. induction l as [|x l IH]; intros a; simpl.
  - ring.
  - rewrite IH, (IH (0 + x)). ring.
Qed.

Lemma py_sum_cons (x : Q) (l : list Q) : py_sum (x :: l) == x + py_sum l.
Proof.
  unfold py_sum at 1. simpl. rewrite fold_Qplus_shift. ring.
Qed.

Lemma py_sum_scaled (t : Q) (l : list Q) :
  py_sum (map (fun v => v / t) l) == py_sum l / t.
Proof.
  induction l as [|x l IH]; simpl.
  - unfold py_sum; simpl. unfold Qdiv. ring.
  - rewrite !py_sum_cons, IH. unfold Qdiv. ring.
Qed.

Lemma fold_Zadd_shift (l : list Z) (a : Z) :
  fold_left Z.add l a = (a + py_sum_int l)%Z.
Proof.
  unfold py_sum_int. revert a. induction l as [|x l IH]; intros a; simpl.
  - lia.
  - rewrite IH, (IH x). lia.
Qed.

Lemma py_sum_int_cons (x : Z) (l : list Z) :
  py_sum_int (x :: l) = (x + py_sum_int l)%Z.
Proof.
  unfold py_sum_int at 1. simpl. now rewrite fold_Zadd_shift.
Qed.

Lemma py_sum_inject (l : list Z) :
  py_sum (map inject_Z l) == inject_Z (py_sum_int l).
Proof.
  induction l as [|x l IH]; simpl.
  - reflexivity.
  - rewrite py_sum_cons, py_sum_int_cons, IH, inject_Z_plus. reflexivity.
Qed.

(** ** Portfolio weights *)

(** C9: the weights are over the keys of the holdings; when the total is 0
    every weight is 0; otherwise the weight of an asset is its holding
    divided by the total, and when the total is positive the weights sum
    to 1. *)
Theorem current_weights_spec (p : Portfolio) :
  keys (current_weights p) = keys (holdings p)
  /\ (total_value p == 0 ->
      Forall (fun w => w = 0) (values (current_weights p)))
  /\ (~ total_value p == 0 ->
      values (current_weights p)
      = map (fun v => v / total_value p) (values (holdings p)))
  /\ (0 < total_value p -> py_sum (values (current_weights p)) == 1).
Proof.
  assert (K : keys (current_weights p) = keys (holdings p)).
  { unfold current_weights, keys.
    destruct (Qeq_bool _ 0); rewrite map_map; apply map_ext; now intros []. }
  assert (N : ~ total_value p == 0 ->
              values (current_weights p)
              = map (fun v => v / total_value p) (values (holdings p))).
  { intros H. unfold current_weights, values.
    destruct (Qeq_bool (total_value p) 0) eqn:E.
    - apply Qeq_bool_iff in E. contradiction.
    - rewrite !map_map. apply map_ext. now intros []. }
  repeat split; auto.
  - intros H. unfold current_weights, values.
    apply Qeq_bool_iff in H. rewrite H, map_map.
    apply Forall_forall. intros w Hw. apply in_map_iff in Hw.
    destruct Hw as ([k v] & Hw & _). now subst.
  - intros H. rewrite N by lra. rewrite py_sum_scaled.
    fold (total_value p). field. lra.
Qed.

(** ** The month loop *)

Lemma month_loop (g : Q) (contrib : Z -> Q) (ms : list Z) (value : Q)
    (acc : list Q) :
  fold_left
    (fun '(value, monthly_values) (m : Z) =>
       ((value + contrib m) * g, monthly_values ++ [(value + contrib m) * g]))
    ms (value, acc)
  = (final_from g contrib ms value, acc ++ trace_from g contrib ms value).
Proof.
  revert value acc. induction ms as [|m ms IH]; intros value acc; simpl.
  - now rewrite app_nil_r.
  - rewrite IH, <- app_assoc. reflexivity.
Qed.

Lemma trace_from_length g contrib ms value :
  List.length (trace_from g contrib ms value) = List.length ms.
Proof.
  revert value. induction ms as [|m ms IH]; intros value; simpl; auto.
Qed.

Lemma trace_from_nth g contrib ms value i :
  (i < List.length ms)%nat ->
  nth i (trace_from g contrib ms value) 0
  = (nth i (value :: trace_from g contrib ms value) 0 + contrib (nth i ms 0%Z))
    * g.
Proof.
  revert value i. induction ms as [|m ms IH]; intros value i Hi; simpl in Hi.
  - lia.
  - destruct i as [|i]; [reflexivity|].
    cbn [trace_from nth]. apply IH. lia.
Qed.

Lemma last_trace_from g contrib ms value d :
  last (value :: trace_from g contrib ms value) d
  = final_from g contrib ms value.
Proof.
  revert value. induction ms as [|m ms IH]; intros value; [reflexivity|].
  cbn [final_from trace_from]. rewrite <- IH. reflexivity.
Qed.

Lemma final_from_last g contrib ms value :
  final_from g contrib ms value = last (trace_from g contrib ms value) value.
Proof.
  destruct ms as [|m ms]; [reflexivity|].
  cbn [final_from trace_from]. now rewrite last_trace_from.
Qed.

Lemma range_length (n : Z) : List.length (range n) = Z.to_nat n.
Proof. unfold range. now rewrite length_map, length_seq. Qed.

Lemma range_nth (n : Z) (i : nat) :
  (i < Z.to_nat n)%nat -> nth i (range n) 0%Z = Z.of_nat i.
Proof.
  intros Hi. unfold range.
  change 0%Z with (Z.of_nat 0). rewrite map_nth, seq_nth; auto.
Qed.

(** The loop keeps the order on values when the growth factor is not
    negative and every contribution of the second run is at least the one of
    the first. *)
Lemma final_from_monotone g c1 c2 ms v1 v2 :
  0 <= g -> (forall m, c1 m <= c2 m) -> v1 <= v2 ->
  final_from g c1 ms v1 <= final_from g c2 ms v2.
Proof.
  intros Hg Hc. revert v1 v2. induction ms as [|m ms IH]; intros v1 v2 Hv.
  - exact Hv.
  - cbn [final_from]. apply IH.
    apply Qmult_le_compat_r; [|exact Hg].
    specialize (Hc m). lra.
Qed.

(** The loop maps equal numbers to equal numbers. *)
Lemma trace_from_same g1 g2 c1 c2 ms v1 v2 :
  g1 == g2 -> (forall m, In m ms -> c1 m == c2 m) -> v1 == v2 ->
  final_from g1 c1 ms v1 == final_from g2 c2 ms v2
  /\ same_trace (trace_from g1 c1 ms v1) (trace_from g2 c2 ms v2).
Proof.
  intros Hg. revert v1 v2. induction ms as [|m ms IH]; intros v1 v2 Hc Hv.
  - split; [exact Hv | constructor].
  - cbn [final_from trace_from].
    assert (E : (v1 + c1 m) * g1 == (v2 + c2 m) * g2).
    { rewrite Hv, Hg, (Hc m) by (now left). reflexivity. }
    destruct (IH _ _ (fun k Hk => Hc k (or_intror Hk)) E) as [F T].
    split; [exact F | constructor; assumption].
Qed.

Lemma final_from_zero g contrib ms value :
  (forall m, contrib m == 0) -> value == 0 ->
  final_from g contrib ms value == 0.
Proof.
  intros Hc. revert value. induction ms as [|m ms IH]; intros value Hv.
  - exact Hv.
  - cbn [final_from]. apply IH. rewrite Hv, Hc. ring.
Qed.

Lemma final_from_no_growth c ms value :
  final_from 1 (fun _ => c) ms value
  == value + inject_Z (Z.of_nat (List.length ms)) * c.
Proof.
  revert value. induction ms as [|m ms IH]; intros value.
  - simpl. ring.
  - cbn [final_from]. rewrite IH. cbn [List.length].
    rewrite Nat2Z.inj_succ. unfold Z.succ. rewrite inject_Z_plus. ring.
Qed.

(** ** The simulators *)

Section SimulatorFacts.

Variable pow_twelfth : Q -> Q.

Lemma simulate_constant_plan_ok current_total c years annual_return extra :
  (0 < years)%Z ->
  simulate_constant_plan pow_twelfth current_total c years annual_return extra
  = Ok (final_from (growth pow_twelfth annual_return) (fun _ => c)
          (range (years * 12)) (current_total + extra),
        trace_from (growth pow_twelfth annual_return) (fun _ => c)
          (range (years * 12)) (current_total + extra)).
Proof.
  intros Hy. unfold simulate_constant_plan.
  destruct (Z.leb_spec years 0) as [H|_]; [lia|].
  f_equal.
  exact (month_loop (growth pow_twelfth annual_return) (fun _ => c) _ _ []).
Qed.

Lemma simulate_dca_ramp_ok initial final years annual_return initial_value :
  (0 < years)%Z ->
  simulate_dca_ramp pow_twelfth initial final years annual_return initial_value
  = Ok (final_from (growth pow_twelfth annual_return)
          (fun m => initial + (final - initial)
                              * (inject_Z m / inject_Z (years * 12 - 1)))
          (range (years * 12)) initial_value,
        trace_from (growth pow_twelfth annual_return)
          (fun m => initial + (final - initial)
                              * (inject_Z m / inject_Z (years * 12 - 1)))
          (range (years * 12)) initial_value).
Proof.
  intros Hy. unfold simulate_dca_ramp.
  destruct (Z.leb_spec (years * 12) 0) as [H|_]; [lia|].
  destruct (Z.eqb_spec (years * 12) 1) as [H|_]; [lia|].
  f_equal.
  exact (month_loop (growth pow_twelfth annual_return)
           (fun m => initial + (final - initial)
                               * (inject_Z m / inject_Z (years * 12 - 1)))
           _ _ []).
Qed.

(** C4: for a positive number of years, each simulator returns a trace, and
    the trace has exactly [years * 12] entries. *)
Theorem simulators_trace_length (years : Z) :
  (0 < years)%Z ->
  (forall current_total monthly_contribution annual_return extra_savings,
     exists v tr,
       simulate_constant_plan pow_twelfth current_total monthly_contribution
         years annual_return extra_savings = Ok (v, tr)
       /\ Z.of_nat (List.length tr) = (years * 12)%Z)
  /\ (forall initial_monthly final_monthly annual_return initial_value,
        exists v tr,
          simulate_dca_ramp pow_twelfth initial_monthly final_monthly years
            annual_return initial_value = Ok (v, tr)
          /\ Z.of_nat (List.length tr) = (years * 12)%Z).
Proof.
  intros Hy. split; intros.
  - rewrite simulate_constant_plan_ok by exact Hy.
    eexists _, _. split; [reflexivity|].
    rewrite trace_from_length, range_length. lia.
  - rewrite simulate_dca_ramp_ok by exact Hy.
    eexists _, _. split; [reflexivity|].
    rewrite trace_from_length, range_length. lia.
Qed.

Hypothesis pow_twelfth_one : pow_twelfth 1 == 1.
Hypothesis pow_twelfth_ge_one : forall x, 1 <= x -> 1 <= pow_twelfth x.

(** C5: both simulators take exactly one step per month, [years * 12] in
    all; every step adds the contribution of the month to the value and then
    multiplies by [1 + r_m], and the value returned is the last entry of the
    trace; with no return ([pow_twelfth 1 == 1]), nothing held and 100 a
    month for one year, the final value is 1200, the trace has 12 entries and
    its last entry is 1200. *)
Theorem simulators_step_order :
  (forall current_total C years annual_return extra_savings,
     (0 < years)%Z ->
     exists v tr,
       simulate_constant_plan pow_twelfth current_total C years annual_return
         extra_savings = Ok (v, tr)
       /\ Z.of_nat (List.length tr) = (years * 12)%Z
       /\ month_steps (current_total + extra_savings) (fun _ => C)
            (pow_twelfth (1 + annual_return) - 1) tr
       /\ v = last tr (current_total + extra_savings))
  /\ (forall initial_monthly final_monthly years annual_return initial_value,
        (0 < years)%Z ->
        exists v tr,
          simulate_dca_ramp pow_twelfth initial_monthly final_monthly years
            annual_return initial_value = Ok (v, tr)
          /\ Z.of_nat (List.length tr) = (years * 12)%Z
          /\ month_steps initial_value
               (ramp_contribution initial_monthly final_monthly (years * 12))
               (pow_twelfth (1 + annual_return) - 1) tr
          /\ v = last tr initial_value)
  /\ (exists v tr,
        simulate_constant_plan pow_twelfth 0 100 1 0 0 = Ok (v, tr)
        /\ v == 1200 /\ List.length tr = 12%nat /\ last tr 0 == 1200).
Proof.
  split; [|split].
  - intros ct C years a extra Hy.
    rewrite simulate_constant_plan_ok by exact Hy.
    eexists _, _. split; [reflexivity|]. split; [|split].
    + rewrite trace_from_length, range_length. lia.
    + intros m Hm. rewrite trace_from_length in Hm.
      now rewrite trace_from_nth by exact Hm.
    + apply final_from_last.
  - intros i f years a v0 Hy.
    rewrite simulate_dca_ramp_ok by exact Hy.
    eexists _, _. split; [reflexivity|]. split; [|split].
    + rewrite trace_from_length, range_length. lia.
    + intros m Hm. rewrite trace_from_length in Hm.
      rewrite trace_from_nth by exact Hm.
      rewrite range_length in Hm. rewrite range_nth by exact Hm.
      reflexivity.
    + apply final_from_last.
  - rewrite simulate_constant_plan_ok by lia.
    eexists _, _. split; [reflexivity|].
    assert (G : growth pow_twelfth 0 == 1).
    { unfold growth. change (1 + 0) with 1. rewrite pow_twelfth_one. ring. }
    assert (F : final_from (growth pow_twelfth 0) (fun _ => 100)
                  (range (1 * 12)) (0 + 0) == 1200).
    { destruct (trace_from_same (growth pow_twelfth 0) 1 (fun _ => 100)
                  (fun _ => 100) (range (1 * 12)) (0 + 0) (0 + 0) G) as [F _];
        try reflexivity.
      rewrite F, final_from_no_growth. reflexivity. }
    split; [exact F|]. split.
    + now rewrite trace_from_length, range_length.
    + change (range (1 * 12)) with (0%Z :: range_from 1 12).
      cbn [trace_from]. rewrite last_trace_from.
      exact F.
Qed.

(** C6: for a positive number of years and an annual return that is not
    negative, the final value of the constant plan does not decrease when the
    monthly contribution grows. *)
Theorem simulate_constant_plan_monotone
    (current_total extra_savings annual_return : Q) (years : Z) (C1 C2 : Q) :
  (0 < years)%Z -> 0 <= annual_return -> C1 <= C2 ->
  exists v1 tr1 v2 tr2,
    simulate_constant_plan pow_twelfth current_total C1 years annual_return
      extra_savings = Ok (v1, tr1)
    /\ simulate_constant_plan pow_twelfth current_total C2 years annual_return
         extra_savings = Ok (v2, tr2)
    /\ v1 <= v2.
Proof.
  intros Hy Ha HC.
  rewrite !simulate_constant_plan_ok by exact Hy.
  eexists _, _, _, _. split; [reflexivity|]. split; [reflexivity|].
  apply final_from_monotone.
  - unfold growth.
    assert (1 <= pow_twelfth (1 + annual_return))
      by (apply pow_twelfth_ge_one; lra).
    lra.
  - intros _. exact HC.
  - lra.
Qed.

(** C10: a ramp from [C] to [C] is the constant plan of [C] a month: for a
    positive number of years both return, with the same final value and the
    same trace. *)
Theorem ramp_with_equal_endpoints (C : Q) (years : Z) (annual_return v : Q) :
  (0 < years)%Z ->
  exists v1 tr1 v2 tr2,
    simulate_dca_ramp pow_twelfth C C years annual_return v = Ok (v1, tr1)
    /\ simulate_constant_plan pow_twelfth v C years annual_return 0
       = Ok (v2, tr2)
    /\ v1 == v2 /\ same_trace tr1 tr2.
Proof.
  intros Hy.
  rewrite simulate_dca_ramp_ok, simulate_constant_plan_ok by exact Hy.
  eexists _, _, _, _. split; [reflexivity|]. split; [reflexivity|].
  apply trace_from_same.
  - reflexivity.
  - intros m _.
    assert (N : ~ inject_Z (years * 12 - 1) == 0).
    { change 0 with (inject_Z 0). rewrite inject_Z_injective. lia. }
    field. exact N.
  - ring.
Qed.

End SimulatorFacts.

Lemma pow_twelfth_tangent_one : pow_twelfth_tangent 1 == 1.
Proof. reflexivity. Qed.

Lemma pow_twelfth_tangent_ge_one (x : Q) : 1 <= x -> 1 <= pow_twelfth_tangent x.
Proof.
  unfold pow_twelfth_tangent, Qdiv. change (/ 12) with (1 # 12).
  intros H. lra.
Qed.

(** ** Rounding *)

Lemma Qfloor_sub_Z (x : Q) (z : Z) :
  Qfloor (x - inject_Z z) = (Qfloor x - z)%Z.
Proof.
  pose proof (Qfloor_le x) as A1. pose proof (Qlt_floor x) as A2.
  pose proof (Qfloor_le (x - inject_Z z)) as B1.
  pose proof (Qlt_floor (x - inject_Z z)) as B2.
  rewrite inject_Z_plus in A2, B2.
  assert (L1 : inject_Z (Qfloor (x - inject_Z z) + z)
               < inject_Z (Qfloor x + 1)).
  { rewrite !inject_Z_plus. lra. }
  assert (L2 : inject_Z (Qfloor x)
               < inject_Z (Qfloor (x - inject_Z z) + z + 1)).
  { rewrite !inject_Z_plus. lra. }
  rewrite <- Zlt_Qlt in L1, L2. lia.
Qed.

Lemma fraction_sub_Z (x : Q) (z : Z) :
  x - inject_Z z - inject_Z (Qfloor (x - inject_Z z))
  == x - inject_Z (Qfloor x).
Proof.
  rewrite Qfloor_sub_Z. unfold Z.sub. rewrite inject_Z_plus, inject_Z_opp. ring.
Qed.

Lemma py_round_sub_Z (x : Q) (z : Z) :
  ~ halfway x -> py_round (x - inject_Z z) = (py_round x - z)%Z.
Proof.
  intros H. unfold py_round.
  rewrite (Qcompare_comp _ _ (fraction_sub_Z x z) _ _ (Qeq_refl (1 # 2))).
  rewrite Qfloor_sub_Z.
  destruct (x - inject_Z (Qfloor x) ?= 1 # 2) eqn:E.
  - apply Qeq_alt in E. contradiction.
  - reflexivity.
  - lia.
Qed.

Lemma py_round_error (x : Q) : Qabs (inject_Z (py_round x) - x) <= 1 # 2.
Proof.
  pose proof (Qfloor_le x) as A1. pose proof (Qlt_floor x) as A2.
  rewrite inject_Z_plus in A2. change (inject_Z 1) with 1 in A2.
  apply Qabs_Qle_condition. unfold py_round.
  destruct (x - inject_Z (Qfloor x) ?= 1 # 2) eqn:E.
  - apply Qeq_alt in E.
    destruct (Z.even (Qfloor x)); rewrite ?inject_Z_plus;
      change (inject_Z 1) with 1; split; lra.
  - apply Qlt_alt in E. split; lra.
  - apply Qgt_alt in E. rewrite inject_Z_plus.
    change (inject_Z 1) with 1. split; lra.
Qed.

(** ** Dict lemmas *)

Lemma mem_key_iff (k : string) (ks : list string) :
  mem_key k ks = true <-> In k ks.
Proof.
  unfold mem_key. rewrite existsb_exists. split.
  - intros (x & Hx & E). apply String.eqb_eq in E. now subst.
  - intros H. exists k. split; [exact H | apply String.eqb_refl].
Qed.

Lemma same_key_set_iff (a b : list string) :
  same_key_set a b = true <-> key_sets_equal a b.
Proof.
  unfold same_key_set, key_sets_equal.
  rewrite andb_true_iff, !forallb_forall. split.
  - intros [H1 H2] k. split; intros H.
    + apply mem_key_iff, H1, H.
    + apply mem_key_iff, H2, H.
  - intros H. split; intros k Hk; apply mem_key_iff, H, Hk.
Qed.

Lemma dict_find_in {V} (d : dict V) (k : string) :
  In k (keys d) -> exists v, dict_find d k = Some v.
Proof.
  induction d as [|[k' v'] d IH]; simpl; [tauto|].
  intros [E|H].
  - subst. rewrite String.eqb_refl. eauto.
  - destruct (String.eqb k k'); eauto.
Qed.

Lemma dict_get_in {V} (d : dict V) (k : string) :
  In k (keys d) -> exists v, dict_get d k = Ok v.
Proof.
  intros H. unfold dict_get. destruct (dict_find_in d k H) as [v ->]. eauto.
Qed.

Lemma dict_set_nonempty {V} (d : dict V) k v : dict_set d k v <> [].
Proof.
  destruct d as [|[k' v'] d]; simpl; [discriminate|].
  destruct (String.eqb k k'); discriminate.
Qed.

Lemma dict_set_sum (d : dict Z) (k : string) (old v : Z) :
  dict_find d k = Some old ->
  py_sum_int (values (dict_set d k v)) = (py_sum_int (values d) - old + v)%Z.
Proof.
  induction d as [|[k' v'] d IH]; simpl; [discriminate|].
  destruct (String.eqb k k').
  - intros [= ->]. simpl. rewrite !py_sum_int_cons. lia.
  - intros H. simpl. rewrite !py_sum_int_cons, IH by exact H. lia.
Qed.

Lemma max_key_from_in (best : string) (best_val : Z) (rest : dict Z) :
  In (max_key_from best best_val rest) (best :: keys rest).
Proof.
  revert best best_val. induction rest as [|[k v] rest IH]; intros b bv; simpl.
  - now left.
  - destruct (bv <? v)%Z.
    + right. apply IH.
    + destruct (IH b bv) as [E|H]; [now left | right; now right].
Qed.

Lemma py_max_key_in (d : dict Z) :
  d <> [] -> exists k, py_max_key d = Ok k /\ In k (keys d).
Proof.
  destruct d as [|[k v] rest]; [congruence|]. intros _.
  eexists. split; [reflexivity|]. apply max_key_from_in.
Qed.

Lemma fill_dict_ok {V W} (f : string -> V -> result W) (items : dict V)
    (acc : dict W) :
  (forall k v, In (k, v) items -> exists w, f k v = Ok w) ->
  exists d, fill_dict f items acc = Ok d
            /\ (items <> [] \/ acc <> [] -> d <> []).
Proof.
  revert acc. induction items as [|[k v] rest IH]; intros acc H; simpl.
  - exists acc. split; [reflexivity|]. intros [N|N]; congruence.
  - destruct (H k v) as [w ->]; [now left|]. simpl.
    destruct (IH (dict_set acc k w)) as (d & E & N).
    { intros k' v' H'. apply H. now right. }
    exists d. split; [exact E|]. intros _. apply N. right.
    apply dict_set_nonempty.
Qed.

Lemma comprehension_ok {V W} (f : string -> V -> result W) (items : dict V) :
  (forall k v, In (k, v) items -> exists w, f k v = Ok w) ->
  exists d, comprehension f items = Ok d.
Proof.
  induction items as [|[k v] rest IH]; intros H; simpl.
  - eauto.
  - destruct (H k v) as [w ->]; [now left|]. simpl.
    destruct IH as [d ->]; [intros k' v' H'; apply H; now right|].
    simpl. eauto.
Qed.

Lemma in_keys {V} (d : dict V) (k : string) (v : V) :
  In (k, v) d -> In k (keys d).
Proof. intros H. apply (in_map fst) in H. exact H. Qed.

(** ** The allocator *)

Lemma values_inject_amounts (d : dict Z) :
  values (inject_amounts d) = map inject_Z (values d).
Proof.
  unfold values, inject_amounts. rewrite !map_map. apply map_ext. now intros [].
Qed.

Lemma needed_for_ok p total_after th cw asset target_w :
  In asset (keys (holdings p)) ->
  exists w, needed_for p total_after th cw asset target_w = Ok w.
Proof.
  intros H. unfold needed_for.
  destruct (dict_get_in _ _ H) as [v ->]. cbn [bind].
  destruct (Qlt_bool 0 th); [destruct (Qlt_bool _ th)|]; eauto.
Qed.

Lemma compute_needed_raw_ok p m th :
  key_sets_equal (keys (holdings p)) (keys (targets p)) ->
  exists nr, compute_needed_raw p m th = Ok nr.
Proof.
  intros K. unfold compute_needed_raw.
  destruct (fill_dict_ok
              (needed_for p (total_value p + m) th (current_weights p))
              (targets p) []) as (d & E & _); [|eauto].
  intros k v H. apply needed_for_ok, K. eapply in_keys, H.
Qed.

(** The rounded branch: the amounts returned are the rounded shares, with
    the rounded difference to the contribution added to one of them. *)
Lemma rounded_branch p m th nr :
  key_sets_equal (keys (holdings p)) (keys (targets p)) ->
  compute_needed_raw p m th = Ok nr ->
  ~ py_sum (values nr) == 0 ->
  exists rounded final : dict Z,
    compute_contribution_plan p m th = Ok (inject_amounts final)
    /\ py_sum_int (values final)
       = (py_sum_int (values rounded)
          + py_round (m - inject_Z (py_sum_int (values rounded))))%Z.
Proof.
  intros K Hnr Hsum. unfold compute_contribution_plan.
  apply same_key_set_iff in K. rewrite K, Hnr. cbn [negb bind].
  destruct (Qeq_bool (py_sum (values nr)) 0) eqn:E.
  { apply Qeq_bool_iff in E. contradiction. }
  destruct (fill_dict_ok (share_for (py_sum (values nr)) m) nr [])
    as (shares & -> & Hne).
  { intros k v _. unfold share_for. eauto. }
  cbn [bind].
  set (rounded :=
         map (fun '(asset, amount) => (asset, py_round amount)) shares).
  assert (R : rounded <> []).
  { assert (S : shares <> []).
    { apply Hne. left. intros ->. apply Hsum. reflexivity. }
    subst rounded. destruct shares; [congruence | discriminate]. }
  exists rounded.
  destruct (py_round (m - inject_Z (py_sum_int (values rounded))) =? 0)%Z eqn:D.
  - exists rounded. cbn [negb bind]. split; [reflexivity|].
    apply Z.eqb_eq in D. rewrite D. lia.
  - cbn [negb].
    destruct (py_max_key_in rounded R) as (biggest & -> & Hin). cbn [bind].
    destruct (dict_find_in rounded biggest Hin) as [old F].
    unfold dict_get. rewrite F. cbn [bind].
    eexists. split; [reflexivity|].
    rewrite (dict_set_sum _ _ old) by exact F. lia.
Qed.

Lemma is_integer_inject (z : Z) : is_integer (inject_Z z).
Proof. unfold is_integer. now rewrite Qfloor_Z. Qed.

(** C1, amended: when the total needed is not 0, the plan is made of whole
    amounts, their sum is within 1/2 of the monthly contribution, and it is
    [round(monthly_contribution)] unless the contribution lies exactly
    halfway between two integers. *)
Theorem plan_sum_rounded_branch (p : Portfolio)
    (monthly_contribution rebalance_threshold : Q) (needed_raw : dict Q) :
  key_sets_equal (keys (holdings p)) (keys (targets p)) ->
  compute_needed_raw p monthly_contribution rebalance_threshold
  = Ok needed_raw ->
  ~ py_sum (values needed_raw) == 0 ->
  exists plan,
    compute_contribution_plan p monthly_contribution rebalance_threshold
    = Ok plan
    /\ Forall is_integer (values plan)
    /\ Qabs (py_sum (values plan) - monthly_contribution) <= 1 # 2
    /\ (~ halfway monthly_contribution ->
        py_sum (values plan) == inject_Z (py_round monthly_contribution)).
Proof.
  intros K Hnr Hsum.
  destruct (rounded_branch p _ _ _ K Hnr Hsum) as (rounded & final & E & S).
  exists (inject_amounts final). split; [exact E|].
  rewrite values_inject_amounts. split; [|split].
  - apply Forall_forall. intros q Hq. apply in_map_iff in Hq.
    destruct Hq as (z & <- & _). apply is_integer_inject.
  - rewrite py_sum_inject, S.
    set (s := py_sum_int (values rounded)).
    pose proof (py_round_error (monthly_contribution - inject_Z s)) as B.
    rewrite inject_Z_plus.
    assert (Eq : inject_Z s
                 + inject_Z (py_round (monthly_contribution - inject_Z s))
                 - monthly_contribution
                 == inject_Z (py_round (monthly_contribution - inject_Z s))
                    - (monthly_contribution - inject_Z s)) by ring.
    rewrite Eq. exact B.
  - intros H. rewrite py_sum_inject, S.
    rewrite py_round_sub_Z by exact H.
    apply inject_Z_injective. lia.
Qed.

(** ** Errors *)

Lemma raises_or_returns {A} (r : result A) (P : Prop) :
  (P -> raises_invalid_input r) -> (~ P -> returns r) -> P \/ ~ P ->
  (raises_invalid_input r <-> P) /\ (returns r <-> ~ P).
Proof.
  intros HP HN D. split; split; auto.
  - intros (msg & E). destruct D as [D|D]; [exact D|].
    destruct (HN D) as (a & E'). congruence.
  - intros (a & E) H. destruct (HP H) as (msg & E'). congruence.
Qed.

Lemma goal_inputs_invalid_dec years annual_return tax_rate :
  goal_inputs_invalid years annual_return tax_rate
  \/ ~ goal_inputs_invalid years annual_return tax_rate.
Proof.
  unfold goal_inputs_invalid.
  destruct (Z_le_gt_dec years 0); [now left; left|].
  destruct (Qlt_le_dec annual_return 0); [now left; right; left|].
  destruct (Qlt_le_dec tax_rate 0); [now left; right; right; left|].
  destruct (Qlt_le_dec 1 tax_rate); [now left; right; right; right|].
  right. intros [H|[H|[H|H]]]; try lia; lra.
Qed.

Lemma tax_rate_check (tax_rate : Q) :
  negb (Qle_bool 0 tax_rate && Qle_bool tax_rate 1) = true
  <-> tax_rate < 0 \/ 1 < tax_rate.
Proof.
  rewrite negb_true_iff, andb_false_iff, <- !not_true_iff_false, !Qle_bool_iff.
  split; intros [H|H]; [left|right|left|right]; lra.
Qed.

Lemma compute_contribution_plan_total p m th :
  key_sets_equal (keys (holdings p)) (keys (targets p)) ->
  returns (compute_contribution_plan p m th).
Proof.
  intros K. destruct (compute_needed_raw_ok p m th K) as [nr Hnr].
  destruct (Qeq_bool (py_sum (values nr)) 0) eqn:E.
  - unfold compute_contribution_plan.
    rewrite (proj2 (same_key_set_iff _ _) K), Hnr. cbn [negb bind]. rewrite E.
    apply comprehension_ok. intros k v H.
    destruct (dict_get_in (targets p) k) as [t ->]; [|cbn [bind]; eauto].
    apply K. eapply in_keys, H.
  - apply Qeq_bool_neq in E.
    destruct (rounded_branch p m th nr K Hnr E) as (_ & final & -> & _).
    eexists. reflexivity.
Qed.

Section SolverFacts.

Variable pow_twelfth : Q -> Q.

Lemma bisection_ok (f : Q -> result Q) (objetivo : Q) (n : nat) (low high : Q) :
  (forall x, returns (f x)) -> returns (bisection f objetivo n low high).
Proof.
  intros Hf. revert low high. induction n as [|n IH]; intros low high; simpl.
  - eexists. reflexivity.
  - destruct (Hf ((low + high) / 2)) as [v ->]. cbn [bind].
    destruct (Qlt_bool v objetivo); apply IH.
Qed.

Lemma net_final_with_monthly_ok current_total years annual_return extra_savings
    tax_rate months C :
  (0 < years)%Z ->
  returns (net_final_with_monthly pow_twelfth current_total years annual_return
             extra_savings tax_rate months C).
Proof.
  intros Hy. unfold net_final_with_monthly.
  rewrite simulate_constant_plan_ok by exact Hy. cbn [bind].
  eexists. reflexivity.
Qed.

Lemma net_final_con_final_monthly_ok current_total years annual_return
    initial_monthly extra_savings tax_rate months_total final_monthly :
  (0 < years)%Z ->
  returns (net_final_con_final_monthly pow_twelfth current_total years
             annual_return initial_monthly extra_savings tax_rate months_total
             final_monthly).
Proof.
  intros Hy. unfold net_final_con_final_monthly.
  rewrite simulate_dca_ramp_ok by exact Hy. cbn [bind].
  eexists. reflexivity.
Qed.

(** The three checks both solvers start with: a violated one raises, and
    past them the inputs are valid. *)
Ltac reject_invalid :=
  split; [eexists; reflexivity | intros N; exfalso; apply N; tauto].

Ltac validate years annual_return tax_rate Hy Ha Ht :=
  unfold goal_inputs_invalid;
  destruct (Z.leb_spec years 0) as [Hy|Hy]; [reject_invalid|];
  destruct (Qlt_bool annual_return 0) eqn:Ha;
  [apply Qlt_bool_iff in Ha; reject_invalid|];
  apply Qlt_bool_false_iff in Ha;
  destruct (negb (Qle_bool 0 tax_rate && Qle_bool tax_rate 1)) eqn:Ht;
  [apply tax_rate_check in Ht; reject_invalid|];
  apply not_true_iff_false in Ht; rewrite tax_rate_check in Ht;
  split; [intros [H|[H|H]]; [lia | lra | tauto]|]; intros _.

Lemma required_constant_cases current_total objetivo_final years annual_return
    extra_savings tax_rate :
  let r := required_constant_monthly_for_goal pow_twelfth current_total
             objetivo_final years annual_return extra_savings tax_rate in
  (goal_inputs_invalid years annual_return tax_rate -> raises_invalid_input r)
  /\ (~ goal_inputs_invalid years annual_return tax_rate -> returns r).
Proof.
  unfold required_constant_monthly_for_goal.
  validate years annual_return tax_rate Hy Ha Ht.
  destruct (net_final_with_monthly_ok current_total years annual_return
              extra_savings tax_rate (years * 12) 0 Hy) as [net0 ->].
  cbn [bind]. destruct (Qle_bool objetivo_final net0); [eexists; reflexivity|].
  match goal with
  | |- returns (bind (bisection ?f ?o ?n ?l ?h) _) =>
      destruct (bisection_ok f o n l h) as [[lo hi] ->]
  end.
  - intros x. now apply net_final_with_monthly_ok.
  - cbn [bind]. eexists. reflexivity.
Qed.

Lemma required_growing_cases current_total objetivo_final years annual_return
    initial_monthly extra_savings tax_rate :
  let r := required_growing_monthlies_for_goal pow_twelfth current_total
             objetivo_final years annual_return initial_monthly extra_savings
             tax_rate in
  (goal_inputs_invalid years annual_return tax_rate -> raises_invalid_input r)
  /\ (~ goal_inputs_invalid years annual_return tax_rate -> returns r).
Proof.
  unfold required_growing_monthlies_for_goal.
  validate years annual_return tax_rate Hy Ha Ht.
  match goal with
  | |- returns (bind (bisection ?f ?o ?n ?l ?h) _) =>
      destruct (bisection_ok f o n l h) as [[lo hi] ->]
  end.
  - intros x. now apply net_final_con_final_monthly_ok.
  - cbn [bind]. eexists. reflexivity.
Qed.

(** C2: each operation raises the invalid-input error ([ValueError] in the
    source) exactly when its precondition is violated, and returns a result
    exactly when it is not: the allocator on key sets that differ, both goal
    solvers on years <= 0, a negative annual return or a tax rate outside
    [0, 1].  A call either raises or returns, never both. *)
Theorem invalid_input_exactly_on_violation :
  (forall p monthly_contribution rebalance_threshold,
     let r := compute_contribution_plan p monthly_contribution
                rebalance_threshold in
     (raises_invalid_input r
      <-> ~ key_sets_equal (keys (holdings p)) (keys (targets p)))
     /\ (returns r
         <-> key_sets_equal (keys (holdings p)) (keys (targets p))))
  /\ (forall current_total objetivo_final years annual_return extra_savings
             tax_rate,
        let r := required_constant_monthly_for_goal pow_twelfth current_total
                   objetivo_final years annual_return extra_savings tax_rate in
        (raises_invalid_input r
         <-> goal_inputs_invalid years annual_return tax_rate)
        /\ (returns r <-> ~ goal_inputs_invalid years annual_return tax_rate))
  /\ (forall current_total objetivo_final years annual_return initial_monthly
             extra_savings tax_rate,
        let r := required_growing_monthlies_for_goal pow_twelfth current_total
                   objetivo_final years annual_return initial_monthly
                   extra_savings tax_rate in
        (raises_invalid_input r
         <-> goal_inputs_invalid years annual_return tax_rate)
        /\ (returns r <-> ~ goal_inputs_invalid years annual_return tax_rate)).
Proof.
  split; [|split].
  - intros p m th r.
    assert (D : key_sets_equal (keys (holdings p)) (keys (targets p))
                \/ ~ key_sets_equal (keys (holdings p)) (keys (targets p))).
    { rewrite <- same_key_set_iff. destruct (same_key_set _ _); auto. }
    cut ((raises_invalid_input r
          <-> ~ key_sets_equal (keys (holdings p)) (keys (targets p)))
         /\ (returns r
             <-> ~ ~ key_sets_equal (keys (holdings p)) (keys (targets p)))).
    { tauto. }
    apply raises_or_returns; [| |tauto].
    + intros N. subst r. unfold compute_contribution_plan.
      rewrite <- same_key_set_iff in N. apply not_true_is_false in N.
      rewrite N. eexists. reflexivity.
    + intros N. apply compute_contribution_plan_total. tauto.
  - intros. apply raises_or_returns.
    + apply required_constant_cases.
    + apply required_constant_cases.
    + apply goal_inputs_invalid_dec.
  - intros. apply raises_or_returns.
    + apply required_growing_cases.
    + apply required_growing_cases.
    + apply goal_inputs_invalid_dec.
Qed.

End SolverFacts.

(** ** The short circuit of the constant-contribution solver *)

Section ShortCircuit.

Variable pow_twelfth : Q -> Q.

Lemma short_circuit current_total objetivo_final years annual_return
    extra_savings tax_rate net0 :
  (0 < years)%Z -> 0 <= annual_return -> 0 <= tax_rate <= 1 ->
  net_final_with_monthly pow_twelfth current_total years annual_return
    extra_savings tax_rate (years * 12) 0 = Ok net0 ->
  objetivo_final <= net0 ->
  required_constant_monthly_for_goal pow_twelfth current_total objetivo_final
    years annual_return extra_savings tax_rate = Ok 0%Z.
Proof.
  intros Hy Ha [Ht0 Ht1] Hnet Hgoal.
  unfold required_constant_monthly_for_goal.
  destruct (Z.leb_spec years 0) as [H|_]; [lia|].
  rewrite (proj2 (Qlt_bool_false_iff annual_return 0) Ha).
  rewrite (proj2 (Qle_bool_iff 0 tax_rate) Ht0).
  rewrite (proj2 (Qle_bool_iff tax_rate 1) Ht1).
  cbn [andb negb]. rewrite Hnet. cbn [bind].
  now rewrite (proj2 (Qle_bool_iff objetivo_final net0) Hgoal).
Qed.

(** C8: on valid inputs, when the net final value of the plan that
    contributes 0 a month reaches the goal, the solver returns 0; so it does
    for nothing held, goal 0, one year and 5% a year. *)
Theorem goal_met_without_contribution :
  (forall current_total objetivo_final years annual_return extra_savings
          tax_rate net0,
     (0 < years)%Z -> 0 <= annual_return -> 0 <= tax_rate <= 1 ->
     net_final_with_monthly pow_twelfth current_total years annual_return
       extra_savings tax_rate (years * 12) 0 = Ok net0 ->
     objetivo_final <= net0 ->
     required_constant_monthly_for_goal pow_twelfth current_total
       objetivo_final years annual_return extra_savings tax_rate = Ok 0%Z)
  /\ required_constant_monthly_for_goal pow_twelfth 0 0 1 (5 # 100) 0 0
     = Ok 0%Z.
Proof.
  split; [apply short_circuit|].
  eapply short_circuit; try lra; try lia.
  - unfold net_final_with_monthly.
    rewrite simulate_constant_plan_ok by lia. cbn [bind]. reflexivity.
  - change (py_round 0) with 0%Z. cbn [Z.ltb Z.compare Z.mul].
    set (final := final_from _ _ _ _).
    assert (F : final == 0).
    { apply final_from_zero; [intros _|]; reflexivity. }
    set (gain := py_max _ _).
    setoid_replace (final - 0 * gain) with final by ring.
    rewrite F. lra.
Qed.

End ShortCircuit.

(** ** Concrete runs *)

(** Scenario 1 of the specification. *)
Example plan_balanced_portfolio :
  compute_contribution_plan balanced_portfolio 100 0
  = Ok [("A"%string, 50); ("B"%string, 50)].
Proof. vm_compute. reflexivity. Qed.

(** Scenario 2 of the specification. *)
Example plan_uneven_portfolio :
  compute_contribution_plan uneven_portfolio 200 0
  = Ok [("A"%string, 0); ("B"%string, 200)].
Proof. vm_compute. reflexivity. Qed.

(** C7: with eight assets at 12.5% each, nothing held and 5 to invest, every
    share rounds up to 1, the difference 5 - 8 = -3 goes to the first asset,
    and its amount is -2. *)
Theorem plan_negative_amount :
  compute_contribution_plan eight_equal_assets 5 0
  = Ok [("A"%string, inject_Z (-2)); ("B"%string, 1); ("C"%string, 1);
        ("D"%string, 1); ("E"%string, 1); ("F"%string, 1); ("G"%string, 1);
        ("H"%string, 1)]
  /\ inject_Z (-2) < 0.
Proof. split; vm_compute; reflexivity. Qed.

(** C1 as stated fails: with targets 25% and 75%, nothing held and 2.5 to
    invest, the plan is 1 and 2 and sums to 3 while [round(2.5)] is 2; and
    in the fallback branch (both assets at their target value) the plan for
    20 is 10 and 9.84375, not whole amounts, and sums to 19.84375. *)
Lemma plan_sum_counterexample :
  (compute_contribution_plan quarter_portfolio (5 # 2) 0
   = Ok [("A"%string, 1); ("B"%string, 2)]
   /\ ~ py_sum [1; 2] == inject_Z (py_round (5 # 2)))
  /\ (compute_contribution_plan caught_up_portfolio 20 0
      = Ok [("A"%string, 20 * (1 # 2)); ("B"%string, 20 * (63 # 128))]
      /\ ~ is_integer (20 * (63 # 128))
      /\ ~ py_sum [20 * (1 # 2); 20 * (63 # 128)] == inject_Z (py_round 20)).
Proof.
  repeat split; try (vm_compute; reflexivity);
    intros H; vm_compute in H; discriminate.
Qed.

(** ** The theorems at concrete inputs *)

Lemma plan_sum_rounded_branch_witness :
  key_sets_equal (keys (holdings uneven_portfolio))
    (keys (targets uneven_portfolio))
  /\ compute_needed_raw uneven_portfolio 200 0
     = Ok [("A"%string, 0); ("B"%string, 1000 # 2)]
  /\ ~ py_sum (values [("A"%string, 0); ("B"%string, 1000 # 2)]) == 0
  /\ exists plan,
       compute_contribution_plan uneven_portfolio 200 0 = Ok plan
       /\ Forall is_integer (values plan)
       /\ Qabs (py_sum (values plan) - 200) <= 1 # 2
       /\ (~ halfway 200 -> py_sum (values plan) == inject_Z (py_round 200)).
Proof.
  assert (K : key_sets_equal (keys (holdings uneven_portfolio))
                (keys (targets uneven_portfolio))).
  { apply same_key_set_iff. reflexivity. }
  assert (N : ~ py_sum (values [("A"%string, 0); ("B"%string, 1000 # 2)]) == 0).
  { intros H. vm_compute in H. discriminate. }
  split; [exact K|]. split; [reflexivity|]. split; [exact N|].
  exact (plan_sum_rounded_branch uneven_portfolio 200 0 _ K eq_refl N).
Defined.

Lemma invalid_input_exactly_on_violation_witness :
  raises_invalid_input
    (compute_contribution_plan
       (mk_portfolio [("A"%string, 0)] [("B"%string, 1)]) 100 0)
  /\ raises_invalid_input
       (required_constant_monthly_for_goal pow_twelfth_tangent 0 1000 0
          (5 # 100) 0 0)
  /\ returns
       (required_growing_monthlies_for_goal pow_twelfth_tangent 0 1000 1
          (5 # 100) 100 0 (1 # 5)).
Proof.
  destruct (invalid_input_exactly_on_violation pow_twelfth_tangent)
    as (A & C & G).
  split; [|split].
  - apply A. intros K. destruct (proj1 (K "A"%string)) as [E|[]].
    + now left.
    + discriminate E.
  - apply C. left. lia.
  - apply G. intros [H|[H|[H|H]]]; [lia | | |];
      vm_compute in H; discriminate.
Defined.

Lemma simulators_trace_length_witness :
  (0 < 2)%Z
  /\ (exists v tr,
        simulate_constant_plan pow_twelfth_tangent 0 100 2 (5 # 100) 0
        = Ok (v, tr)
        /\ Z.of_nat (List.length tr) = (2 * 12)%Z)
  /\ (exists v tr,
        simulate_dca_ramp pow_twelfth_tangent 50 150 2 (5 # 100) 0 = Ok (v, tr)
        /\ Z.of_nat (List.length tr) = (2 * 12)%Z).
Proof.
  assert (Hy : (0 < 2)%Z) by lia.
  split; [exact Hy|]. split.
  - exact (proj1 (simulators_trace_length pow_twelfth_tangent 2 Hy)
             0 100 (5 # 100) 0).
  - exact (proj2 (simulators_trace_length pow_twelfth_tangent 2 Hy)
             50 150 (5 # 100) 0).
Defined.

Lemma simulators_step_order_witness :
  pow_twelfth_tangent 1 == 1
  /\ exists v tr,
       simulate_constant_plan pow_twelfth_tangent 0 100 1 0 0 = Ok (v, tr)
       /\ v == 1200 /\ List.length tr = 12%nat /\ last tr 0 == 1200.
Proof.
  split; [reflexivity|].
  exact (proj2 (proj2 (simulators_step_order pow_twelfth_tangent
                         pow_twelfth_tangent_one))).
Defined.

Lemma simulate_constant_plan_monotone_witness :
  (forall x, 1 <= x -> 1 <= pow_twelfth_tangent x)
  /\ (0 < 1)%Z /\ 0 <= 5 # 100 /\ 100 <= 200
  /\ exists v1 tr1 v2 tr2,
       simulate_constant_plan pow_twelfth_tangent 1000 100 1 (5 # 100) 0
       = Ok (v1, tr1)
       /\ simulate_constant_plan pow_twelfth_tangent 1000 200 1 (5 # 100) 0
          = Ok (v2, tr2)
       /\ v1 <= v2.
Proof.
  split; [exact pow_twelfth_tangent_ge_one|].
  split; [lia|]. split; [lra|]. split; [lra|].
  apply (simulate_constant_plan_monotone pow_twelfth_tangent
           pow_twelfth_tangent_ge_one 1000 0 (5 # 100) 1 100 200);
    [lia | lra | lra].
Defined.

Lemma goal_met_without_contribution_witness :
  (0 < 1)%Z /\ 0 <= 0 /\ 0 <= 0 <= 1
  /\ net_final_with_monthly pow_twelfth_tangent 1000 1 0 0 0 (1 * 12) 0
     = Ok (8916100448256000 # 8916100448256)
  /\ 500 <= 8916100448256000 # 8916100448256
  /\ required_constant_monthly_for_goal pow_twelfth_tangent 1000 500 1 0 0 0
     = Ok 0%Z.
Proof.
  assert (N : net_final_with_monthly pow_twelfth_tangent 1000 1 0 0 0 (1 * 12) 0
              = Ok (8916100448256000 # 8916100448256)).
  { vm_compute. reflexivity. }
  assert (G : 500 <= 8916100448256000 # 8916100448256).
  { apply Qle_bool_iff. vm_compute. reflexivity. }
  split; [lia|]. split; [lra|]. split; [lra|]. split; [exact N|].
  split; [exact G|].
  apply (proj1 (goal_met_without_contribution pow_twelfth_tangent)
           1000 500 1%Z 0 0 0 (8916100448256000 # 8916100448256));
    [lia | lra | lra | exact N | exact G].
Defined.

Lemma current_weights_spec_witness :
  0 < total_value uneven_portfolio
  /\ py_sum (values (current_weights uneven_portfolio)) == 1.
Proof.
  assert (T : 0 < total_value uneven_portfolio) by reflexivity.
  split; [exact T|].
  exact (proj2 (proj2 (proj2 (current_weights_spec uneven_portfolio))) T).
Defined.

Lemma ramp_with_equal_endpoints_witness :
  (0 < 1)%Z
  /\ exists v1 tr1 v2 tr2,
       simulate_dca_ramp pow_twelfth_tangent 100 100 1 (5 # 100) 1000
       = Ok (v1, tr1)
       /\ simulate_constant_plan pow_twelfth_tangent 1000 100 1 (5 # 100) 0
          = Ok (v2, tr2)
       /\ v1 == v2 /\ same_trace tr1 tr2.
Proof.
  split; [lia|].
  apply (ramp_with_equal_endpoints pow_twelfth_tangent 100 1 (5 # 100) 1000).
  lia.
Defined.

(** ** More on dicts: keys, fresh keys, sums along a key list *)

Lemma keys_dict_set {V} (d : dict V) (k : string) (v : V) (k' : string) :
  In k' (keys (dict_set d k v)) <-> k' = k \/ In k' (keys d).
Proof.
  induction d as [|[k0 v0] d IH]; simpl.
  - intuition.
  - destruct (String.eqb_spec k k0) as [->|N]; simpl.
    + intuition.
    + rewrite IH. intuition.
Qed.

Lemma keys_dict_set_present {V} (d : dict V) (k : string) (v : V) :
  In k (keys d) -> keys (dict_set d k v) = keys d.
Proof.
  induction d as [|[k0 v0] d IH]; simpl; [tauto|].
  destruct (String.eqb_spec k k0) as [->|N]; simpl; [reflexivity|].
  intros [E|H]; [congruence|]. now rewrite IH.
Qed.

Lemma dict_set_other {V} (d : dict V) (k : string) (v : V) k' a :
  In (k', a) (dict_set d k v) -> k' <> k -> In (k', a) d.
Proof.
  induction d as [|[k0 v0] d IH]; simpl.
  - intros [[= -> ->]|[]] N. congruence.
  - destruct (String.eqb_spec k k0) as [->|N0]; simpl.
    + intros [[= -> ->]|H] N; [congruence | now right].
    + intros [E|H] N; [now left | right; now apply IH].
Qed.

Lemma dict_set_fresh {V} (d : dict V) (k : string) (v : V) :
  ~ In k (keys d) -> dict_set d k v = d ++ [(k, v)].
Proof.
  induction d as [|[k0 v0] d IH]; simpl; [reflexivity|].
  intros N. destruct (String.eqb_spec k k0) as [->|_]; [tauto|].
  rewrite IH by tauto. reflexivity.
Qed.

Lemma fill_dict_keys {V W} (f : string -> V -> result W) (items : dict V)
    (acc d : dict W) :
  fill_dict f items acc = Ok d ->
  forall k, In k (keys d) <-> In k (keys acc) \/ In k (keys items).
Proof.
  revert acc. induction items as [|[k0 v0] rest IH]; intros acc E k; simpl in *.
  - injection E as <-. tauto.
  - destruct (f k0 v0) as [w|e]; [|discriminate]. cbn [bind] in E.
    rewrite (IH _ E), keys_dict_set. intuition.
Qed.

Lemma fill_dict_values {V W} (P : W -> Prop) (f : string -> V -> result W)
    (items : dict V) (acc d : dict W) :
  (forall k v w, In (k, v) items -> f k v = Ok w -> P w) ->
  Forall P (values acc) ->
  fill_dict f items acc = Ok d -> Forall P (values d).
Proof.
  revert acc. induction items as [|[k0 v0] rest IH]; intros acc Hf Ha E;
    simpl in E.
  - now injection E as <-.
  - destruct (f k0 v0) as [w|e] eqn:F; [|discriminate]. cbn [bind] in E.
    apply (IH (dict_set acc k0 w)); [| |exact E].
    + intros k v w' Hin. apply Hf. now right.
    + assert (Pw : P w) by (apply (Hf k0 v0); [now left | exact F]).
      clear -Ha Pw. induction acc as [|[k1 v1] acc IHa]; simpl.
      * repeat constructor. exact Pw.
      * inversion Ha; subst.
        destruct (String.eqb k0 k1); simpl; constructor; auto.
Qed.

(** Over keys that are all new, the loop appends one entry per item, in
    order. *)
Lemma fill_dict_fresh {V W} (f : string -> V -> result W) (items : dict V)
    (acc d : dict W) :
  NoDup (keys items) ->
  (forall k, In k (keys items) -> ~ In k (keys acc)) ->
  fill_dict f items acc = Ok d ->
  exists d',
    d = acc ++ d'
    /\ Forall2
         (fun kv kw => fst kw = fst kv /\ f (fst kv) (snd kv) = Ok (snd kw))
         items d'.
Proof.
  revert acc. induction items as [|[k0 v0] rest IH]; intros acc ND Fr E;
    simpl in E.
  - injection E as <-. exists []. split; [now rewrite app_nil_r | constructor].
  - destruct (f k0 v0) as [w|e] eqn:F; [|discriminate]. cbn [bind] in E.
    simpl in ND. inversion ND as [|? ? Nin ND']; subst.
    rewrite dict_set_fresh in E by (apply Fr; now left).
    destruct (IH (acc ++ [(k0, w)]) ND') as (d' & -> & F2); [|exact E|].
    { intros k Hk. unfold keys. rewrite map_app, in_app_iff. simpl.
      intros [H|[<-|[]]]; [|contradiction].
      apply (Fr k); [now right | exact H]. }
    exists ((k0, w) :: d'). split; [now rewrite <- app_assoc|].
    constructor; [split; [reflexivity | exact F] | exact F2].
Qed.

Lemma py_sum_perm (l l' : list Q) : Permutation l l' -> py_sum l == py_sum l'.
Proof.
  induction 1 as [|x l l' _ IH|x y l|l l' l'' _ IH1 _ IH2].
  - reflexivity.
  - now rewrite !py_sum_cons, IH.
  - rewrite !py_sum_cons. ring.
  - now rewrite IH1.
Qed.

Lemma lookup_own_keys (d : dict Q) :
  NoDup (keys d) -> map (fun k => dict_get_default d k 0) (keys d) = values d.
Proof.
  induction d as [|[k v] d IH]; intros ND; [reflexivity|].
  simpl in ND. inversion ND as [|? ? Nin ND']; subst.
  cbn [keys values map fst snd]. f_equal.
  - unfold dict_get_default. simpl. now rewrite String.eqb_refl.
  - transitivity (map (fun k => dict_get_default d k 0) (keys d));
      [|exact (IH ND')].
    apply map_ext_in. intros k' Hk'.
    unfold dict_get_default. simpl.
    destruct (String.eqb_spec k' k) as [->|_]; [contradiction | reflexivity].
Qed.

(** Looking a dict up along any listing of its keys adds up to the sum of
    its values. *)
Lemma py_sum_along_keys (d : dict Q) (ks : list string) :
  NoDup (keys d) -> NoDup ks -> key_sets_equal ks (keys d) ->
  py_sum (map (fun k => dict_get_default d k 0) ks) == py_sum (values d).
Proof.
  intros ND NDk K.
  rewrite <- (lookup_own_keys d ND).
  apply py_sum_perm, Permutation_map, NoDup_Permutation; assumption.
Qed.

Lemma py_sum_nonneg (l : list Q) : Forall (fun v => 0 <= v) l -> 0 <= py_sum l.
Proof.
  induction 1 as [|x l Hx _ IH]; [unfold py_sum; simpl; lra|].
  rewrite py_sum_cons. lra.
Qed.

(** ** The allocator, entry by entry *)

Lemma py_max_ge_left (a b : Q) : a <= py_max a b.
Proof.
  unfold py_max. destruct (Qlt_bool a b) eqn:E; [|lra].
  apply Qlt_bool_iff in E. lra.
Qed.

Lemma py_max_ge_right (a b : Q) : b <= py_max a b.
Proof.
  unfold py_max. destruct (Qlt_bool a b) eqn:E; [lra|].
  now apply Qlt_bool_false_iff in E.
Qed.

Lemma dict_find_some_in {V} (d : dict V) (k : string) (v : V) :
  dict_find d k = Some v -> In (k, v) d.
Proof.
  induction d as [|[k0 v0] d IH]; simpl; [discriminate|].
  destruct (String.eqb_spec k k0) as [->|_].
  - intros [= ->]. now left.
  - intros H. right. now apply IH.
Qed.

Lemma dict_get_value {V} (d : dict V) (k : string) (v : V) :
  dict_get d k = Ok v -> dict_find d k = Some v.
Proof. unfold dict_get. destruct (dict_find d k); congruence. Qed.

Lemma in_values {V} (d : dict V) (k : string) (v : V) :
  In (k, v) d -> In v (values d).
Proof. intros H. apply (in_map snd) in H. exact H. Qed.

Lemma needed_for_value p total_after th cw asset target_w x :
  needed_for p total_after th cw asset target_w = Ok x ->
  x = py_max 0 (target_w * total_after
                - dict_get_default (holdings p) asset 0).
Proof.
  unfold needed_for, dict_get, dict_get_default.
  destruct (dict_find (holdings p) asset) as [h|]; cbn [bind]; [|discriminate].
  destruct (Qlt_bool 0 th); [destruct (Qlt_bool _ th)|]; congruence.
Qed.

Lemma Forall2_map_eq {A B} (f : A -> B) (l : list A) (l' : list B) :
  Forall2 (fun a b => b = f a) l l' -> l' = map f l.
Proof. induction 1; simpl; congruence. Qed.

Lemma Forall2_weaken {A B} (R R' : A -> B -> Prop) (l : list A) (l' : list B) :
  (forall a b, R a b -> R' a b) -> Forall2 R l l' -> Forall2 R' l l'.
Proof. intros H. induction 1; constructor; auto. Qed.

(** With distinct target keys, [needed_raw] has one entry per target, in the
    order of the targets. *)
Lemma needed_raw_entries p m th nr :
  wf_dict (targets p) ->
  compute_needed_raw p m th = Ok nr ->
  nr = map (fun kw =>
              (fst kw,
               py_max 0 (snd kw * (total_value p + m)
                         - dict_get_default (holdings p) (fst kw) 0)))
         (targets p).
Proof.
  intros ND E. unfold compute_needed_raw in E.
  destruct (fill_dict_fresh _ (targets p) [] nr ND (fun _ _ H => H) E)
    as (d' & -> & F).
  cbn [app]. apply Forall2_map_eq.
  eapply Forall2_weaken; [|exact F].
  intros [k w] [k' x] [Hk Hx]. cbn [fst snd] in *. subst k'.
  now rewrite (needed_for_value _ _ _ _ _ _ _ Hx).
Qed.

Lemma needed_sum_lower (ta : Q) (h : string -> Q) (l : dict Q) :
  ta * py_sum (values l) - py_sum (map (fun k => h k) (keys l))
  <= py_sum
       (values
          (map (fun kw => (fst kw, py_max 0 (snd kw * ta - h (fst kw)))) l)).
Proof.
  unfold values, keys. induction l as [|[k w] l IH].
  - unfold py_sum. simpl. lra.
  - cbn [map fst snd] in *. rewrite !py_sum_cons.
    pose proof (py_max_ge_right 0 (w * ta - h k)). lra.
Qed.

(** The total needed is at least what the targets ask of the new total,
    less what is held. *)
Lemma total_needed_lower p m th nr :
  wf_dict (holdings p) -> wf_dict (targets p) ->
  key_sets_equal (keys (holdings p)) (keys (targets p)) ->
  compute_needed_raw p m th = Ok nr ->
  (total_value p + m) * py_sum (values (targets p)) - total_value p
  <= py_sum (values nr).
Proof.
  intros WH WT K E. rewrite (needed_raw_entries p m th nr WT E).
  pose proof (needed_sum_lower (total_value p + m)
                (fun k => dict_get_default (holdings p) k 0) (targets p)) as L.
  rewrite (py_sum_along_keys (holdings p) (keys (targets p)) WH WT) in L.
  - exact L.
  - intros k. symmetry. apply K.
Qed.

(** The rounded branch in full: the shares, their rounding, and the one entry
    that takes the difference. *)
Lemma rounded_branch_shape p m th nr :
  key_sets_equal (keys (holdings p)) (keys (targets p)) ->
  compute_needed_raw p m th = Ok nr ->
  ~ py_sum (values nr) == 0 ->
  exists (shares : dict Q) (final : dict Z),
    fill_dict (share_for (py_sum (values nr)) m) nr [] = Ok shares
    /\ compute_contribution_plan p m th = Ok (inject_amounts final)
    /\ let rounded :=
         map (fun '(asset, amount) => (asset, py_round amount)) shares in
       let diff :=
         py_round (m - inject_Z (py_sum_int (values rounded))) in
       py_sum_int (values final) = (py_sum_int (values rounded) + diff)%Z
       /\ (final = rounded
           \/ exists biggest old,
                In biggest (keys rounded)
                /\ final = dict_set rounded biggest (old + diff)%Z).
Proof.
  intros K Hnr Hsum. unfold compute_contribution_plan.
  apply same_key_set_iff in K. rewrite K, Hnr. cbn [negb bind].
  destruct (Qeq_bool (py_sum (values nr)) 0) eqn:E.
  { apply Qeq_bool_iff in E. contradiction. }
  destruct (fill_dict_ok (share_for (py_sum (values nr)) m) nr [])
    as (shares & F & Hne).
  { intros k v _. unfold share_for. eauto. }
  rewrite F. cbn [bind]. exists shares.
  set (rounded :=
         map (fun '(asset, amount) => (asset, py_round amount)) shares).
  assert (R : rounded <> []).
  { assert (S : shares <> []).
    { apply Hne. left. intros ->. apply Hsum. reflexivity. }
    subst rounded. destruct shares; [congruence | discriminate]. }
  destruct (py_round (m - inject_Z (py_sum_int (values rounded))) =? 0)%Z eqn:D.
  - exists rounded. cbn [negb bind]. split; [exact eq_refl|].
    split; [reflexivity|]. cbn zeta. split; [|now left].
    apply Z.eqb_eq in D. rewrite D. lia.
  - cbn [negb].
    destruct (py_max_key_in rounded R) as (biggest & -> & Hin). cbn [bind].
    destruct (dict_find_in rounded biggest Hin) as [old Fo].
    unfold dict_get. rewrite Fo. cbn [bind].
    eexists. split; [exact eq_refl|]. split; [reflexivity|]. cbn zeta. split.
    + rewrite (dict_set_sum _ _ old) by exact Fo. lia.
    + right. exists biggest, old. split; [exact Hin | reflexivity].
Qed.

Lemma comprehension_entries {V W} (f : string -> V -> result W)
    (items : dict V) (d : dict W) :
  comprehension f items = Ok d ->
  Forall2 (fun kv kw => fst kw = fst kv /\ f (fst kv) (snd kv) = Ok (snd kw))
    items d.
Proof.
  revert d. induction items as [|[k v] rest IH]; intros d E; simpl in E.
  - injection E as <-. constructor.
  - destruct (f k v) as [w|e] eqn:F; [|discriminate]. cbn [bind] in E.
    destruct (comprehension f rest) as [tail|e]; [|discriminate].
    cbn [bind] in E. injection E as <-.
    constructor; [split; [reflexivity | exact F] | now apply IH].
Qed.

(** The fallback branch in full: one entry per holding, in the order of the
    holdings, the contribution times the target of the asset. *)
Lemma fallback_branch p m th nr :
  key_sets_equal (keys (holdings p)) (keys (targets p)) ->
  compute_needed_raw p m th = Ok nr ->
  py_sum (values nr) == 0 ->
  compute_contribution_plan p m th
  = Ok (map (fun kv => (fst kv, m * dict_get_default (targets p) (fst kv) 0))
          (holdings p)).
Proof.
  intros K Hnr Hsum.
  destruct (compute_contribution_plan_total p m th K) as [plan E].
  rewrite E. f_equal.
  unfold compute_contribution_plan in E.
  rewrite (proj2 (same_key_set_iff _ _) K), Hnr in E. cbn [negb bind] in E.
  rewrite (proj2 (Qeq_bool_iff _ _) Hsum) in E.
  apply comprehension_entries in E.
  apply Forall2_map_eq. eapply Forall2_weaken; [|exact E].
  intros [k v] [k' x] [Hk Hx]. cbn [fst snd] in *. subst k'.
  unfold dict_get, dict_get_default in *.
  destruct (dict_find (targets p) k); cbn [bind] in Hx; congruence.
Qed.

Lemma Forall2_keys {V W} (R : string * V -> string * W -> Prop)
    (l : dict V) (l' : dict W) :
  (forall kv kw, R kv kw -> fst kw = fst kv) ->
  Forall2 R l l' -> keys l' = keys l.
Proof.
  intros H. induction 1 as [|kv kw l l' HR _ IH]; [reflexivity|].
  cbn [keys map]. f_equal; [now apply H | exact IH].
Qed.

Lemma keys_inject_amounts (d : dict Z) : keys (inject_amounts d) = keys d.
Proof.
  unfold keys, inject_amounts. rewrite map_map. apply map_ext. now intros [].
Qed.

Lemma py_sum_scale (m : Q) (l : list Q) :
  py_sum (map (fun x => m * x) l) == m * py_sum l.
Proof.
  induction l as [|x l IH]; [unfold py_sum; simpl; ring|].
  cbn [map]. rewrite !py_sum_cons, IH. ring.
Qed.

Lemma py_sum_all_zero (l : list Q) :
  Forall (fun v => v == 0) l -> py_sum l == 0.
Proof.
  induction 1 as [|x l Hx _ IH]; [reflexivity|].
  rewrite py_sum_cons, Hx, IH. ring.
Qed.

Lemma py_round_comp (x y : Q) : x == y -> py_round x = py_round y.
Proof.
  intros E. unfold py_round. rewrite (Qfloor_comp _ _ E).
  assert (F : x - inject_Z (Qfloor y) == y - inject_Z (Qfloor y))
    by (rewrite E; reflexivity).
  now rewrite (Qcompare_comp _ _ F _ _ (Qeq_refl (1 # 2))).
Qed.

Lemma py_round_inject (z : Z) : py_round (inject_Z z) = z.
Proof.
  unfold py_round. rewrite Qfloor_Z.
  assert (F : inject_Z z - inject_Z z == 0) by ring.
  now rewrite (Qcompare_comp _ _ F _ _ (Qeq_refl (1 # 2))).
Qed.

Lemma py_round_ge_floor (x : Q) : (Qfloor x <= py_round x)%Z.
Proof.
  unfold py_round.
  destruct (x - inject_Z (Qfloor x) ?= 1 # 2); [destruct (Z.even _)| |]; lia.
Qed.

Lemma py_round_le_floor_succ (x : Q) : (py_round x <= Qfloor x + 1)%Z.
Proof.
  unfold py_round.
  destruct (x - inject_Z (Qfloor x) ?= 1 # 2); [destruct (Z.even _)| |]; lia.
Qed.

Lemma py_round_nonneg (x : Q) : 0 <= x -> (0 <= py_round x)%Z.
Proof.
  intros H. pose proof (py_round_ge_floor x).
  pose proof (Qfloor_resp_le 0 x H) as F. change (Qfloor 0) with 0%Z in F. lia.
Qed.

(** What the rounded amounts add up to, against the contribution. *)
Lemma rounded_sum_facts (m : Q) (s total : Z) :
  total = (s + py_round (m - inject_Z s))%Z ->
  Qabs (inject_Z total - m) <= 1 # 2
  /\ (~ halfway m -> inject_Z total == inject_Z (py_round m)).
Proof.
  intros ->. split.
  - pose proof (py_round_error (m - inject_Z s)) as B.
    rewrite inject_Z_plus.
    assert (Eq : inject_Z s + inject_Z (py_round (m - inject_Z s)) - m
                 == inject_Z (py_round (m - inject_Z s)) - (m - inject_Z s))
      by ring.
    rewrite Eq. exact B.
  - intros H. rewrite py_round_sub_Z by exact H.
    apply inject_Z_injective. lia.
Qed.

(** X1: when holdings and targets are dicts over the same keys, the plan has
    exactly one entry per asset. *)
Theorem plan_one_entry_per_asset (p : Portfolio)
    (monthly_contribution rebalance_threshold : Q) :
  wf_dict (holdings p) -> wf_dict (targets p) ->
  key_sets_equal (keys (holdings p)) (keys (targets p)) ->
  exists plan,
    compute_contribution_plan p monthly_contribution rebalance_threshold
    = Ok plan
    /\ Permutation (keys plan) (keys (holdings p)).
Proof.
  intros WH WT K.
  destruct (compute_needed_raw_ok p monthly_contribution rebalance_threshold K)
    as [nr Hnr].
  destruct (Qeq_bool (py_sum (values nr)) 0) eqn:E.
  - apply Qeq_bool_iff in E.
    rewrite (fallback_branch p _ _ nr K Hnr E). eexists. split; [reflexivity|].
    unfold keys. rewrite map_map. cbn [fst]. apply Permutation_refl.
  - apply Qeq_bool_neq in E.
    destruct (rounded_branch_shape p _ _ nr K Hnr E)
      as (shares & final & F & -> & _ & Hfinal).
    eexists. split; [reflexivity|].
    assert (Knr : keys nr = keys (targets p)).
    { rewrite (needed_raw_entries p _ _ nr WT Hnr).
      unfold keys. rewrite map_map. reflexivity. }
    assert (Ks : keys shares = keys nr).
    { assert (NDnr : NoDup (keys nr)) by (rewrite Knr; exact WT).
      destruct (fill_dict_fresh _ nr [] shares NDnr (fun _ _ H => H) F)
        as (d' & -> & F2).
      cbn [app]. eapply Forall2_keys; [|exact F2]. now intros ? ? []. }
    assert (Kr : keys (map (fun '(asset, amount) => (asset, py_round amount))
                         shares) = keys shares).
    { unfold keys. rewrite map_map. apply map_ext. now intros []. }
    assert (Kf : keys final = keys (targets p)).
    { destruct Hfinal as [->|(biggest & old & Hin & ->)].
      - now rewrite Kr, Ks.
      - rewrite keys_dict_set_present by exact Hin. now rewrite Kr, Ks. }
    rewrite keys_inject_amounts, Kf.
    apply NoDup_Permutation; [exact WT | exact WH|].
    intros k. symmetry. apply K.
Qed.

(** X2: when the targets sum to 1 and the contribution is not negative, the
    plan is made of whole amounts, their sum is within 1/2 of the
    contribution, and it is [round(monthly_contribution)] unless the
    contribution lies exactly halfway between two integers; the fallback
    branch is then taken only for a contribution of 0. *)
Theorem normalized_plan_sum (p : Portfolio)
    (monthly_contribution rebalance_threshold : Q) :
  wf_dict (holdings p) -> wf_dict (targets p) ->
  key_sets_equal (keys (holdings p)) (keys (targets p)) ->
  py_sum (values (targets p)) == 1 ->
  0 <= monthly_contribution ->
  exists plan,
    compute_contribution_plan p monthly_contribution rebalance_threshold
    = Ok plan
    /\ Forall is_integer (values plan)
    /\ Qabs (py_sum (values plan) - monthly_contribution) <= 1 # 2
    /\ (~ halfway monthly_contribution ->
        py_sum (values plan) == inject_Z (py_round monthly_contribution)).
Proof.
  intros WH WT K S1 Hm.
  destruct (compute_needed_raw_ok p monthly_contribution rebalance_threshold K)
    as [nr Hnr].
  pose proof (total_needed_lower p _ _ nr WH WT K Hnr) as L.
  rewrite S1 in L.
  destruct (Qeq_bool (py_sum (values nr)) 0) eqn:E.
  - apply Qeq_bool_iff in E.
    assert (M0 : monthly_contribution == 0) by lra.
    rewrite (fallback_branch p _ _ nr K Hnr E). eexists. split; [reflexivity|].
    assert (Z0 : Forall (fun v => v == 0)
                   (values (map (fun kv =>
                                   (fst kv,
                                    monthly_contribution
                                    * dict_get_default (targets p) (fst kv) 0))
                              (holdings p)))).
    { unfold values. rewrite map_map. cbn [snd]. apply Forall_forall.
      intros v Hv. apply in_map_iff in Hv. destruct Hv as (kv & <- & _).
      rewrite M0. ring. }
    split; [|split].
    + eapply Forall_impl; [|exact Z0]. intros v Hv. unfold is_integer.
      rewrite (Qfloor_comp _ _ Hv). rewrite Hv. reflexivity.
    + rewrite (py_sum_all_zero _ Z0), M0. vm_compute. discriminate.
    + intros _. rewrite (py_sum_all_zero _ Z0), (py_round_comp _ _ M0).
      reflexivity.
  - apply Qeq_bool_neq in E.
    destruct (rounded_branch_shape p _ _ nr K Hnr E)
      as (shares & final & _ & -> & Hsum & _).
    eexists. split; [reflexivity|].
    rewrite values_inject_amounts. split.
    + apply Forall_forall. intros q Hq. apply in_map_iff in Hq.
      destruct Hq as (z & <- & _). apply is_integer_inject.
    + rewrite py_sum_inject. exact (rounded_sum_facts _ _ _ Hsum).
Qed.

(** X3: in the fallback branch (total needed 0) the plan lists the assets in
    the order of the holdings and sums to the contribution times the sum of
    the targets. *)
Theorem fallback_plan_sum (p : Portfolio)
    (monthly_contribution rebalance_threshold : Q) (needed_raw : dict Q) :
  wf_dict (holdings p) -> wf_dict (targets p) ->
  key_sets_equal (keys (holdings p)) (keys (targets p)) ->
  compute_needed_raw p monthly_contribution rebalance_threshold
  = Ok needed_raw ->
  py_sum (values needed_raw) == 0 ->
  exists plan,
    compute_contribution_plan p monthly_contribution rebalance_threshold
    = Ok plan
    /\ keys plan = keys (holdings p)
    /\ py_sum (values plan)
       == monthly_contribution * py_sum (values (targets p)).
Proof.
  intros WH WT K Hnr E.
  rewrite (fallback_branch p _ _ needed_raw K Hnr E).
  eexists. split; [reflexivity|]. split.
  - unfold keys. rewrite map_map. reflexivity.
  - unfold values at 1. rewrite map_map. cbn [snd].
    rewrite <- (py_sum_along_keys (targets p) (keys (holdings p)) WT WH K).
    rewrite <- py_sum_scale. unfold keys. rewrite !map_map. reflexivity.
Qed.

(** X4: with a contribution and targets that are not negative, at most one
    asset of the plan gets a negative amount. *)
Theorem at_most_one_negative_amount (p : Portfolio)
    (monthly_contribution rebalance_threshold : Q) :
  key_sets_equal (keys (holdings p)) (keys (targets p)) ->
  nonnegative_values (targets p) ->
  0 <= monthly_contribution ->
  exists plan,
    compute_contribution_plan p monthly_contribution rebalance_threshold
    = Ok plan
    /\ exists asset,
         forall other amount,
           In (other, amount) plan -> other <> asset -> 0 <= amount.
Proof.
  intros K HT Hm.
  destruct (compute_needed_raw_ok p monthly_contribution rebalance_threshold K)
    as [nr Hnr].
  destruct (Qeq_bool (py_sum (values nr)) 0) eqn:E.
  - apply Qeq_bool_iff in E.
    rewrite (fallback_branch p _ _ nr K Hnr E). eexists. split; [reflexivity|].
    exists ""%string. intros other amount Hin _.
    apply in_map_iff in Hin. destruct Hin as ([k v] & [= <- <-] & _).
    cbn [fst]. apply Qmult_le_0_compat; [exact Hm|].
    unfold dict_get_default.
    destruct (dict_find (targets p) k) as [t|] eqn:F; [|lra].
    unfold nonnegative_values in HT. rewrite Forall_forall in HT.
    apply HT. eapply in_values, dict_find_some_in, F.
  - apply Qeq_bool_neq in E.
    assert (Nn : Forall (fun v => 0 <= v) (values nr)).
    { unfold compute_needed_raw in Hnr.
      eapply fill_dict_values; [| |exact Hnr]; [|constructor].
      intros k v w _ Hw. rewrite (needed_for_value _ _ _ _ _ _ _ Hw).
      apply py_max_ge_left. }
    assert (Tp : 0 < py_sum (values nr)).
    { pose proof (py_sum_nonneg _ Nn). lra. }
    destruct (rounded_branch_shape p _ _ nr K Hnr E)
      as (shares & final & F & -> & _ & Hfinal).
    eexists. split; [reflexivity|].
    assert (Ns : Forall (fun v => 0 <= v) (values shares)).
    { eapply fill_dict_values; [| |exact F]; [|constructor].
      intros k v w Hin Hw. unfold share_for in Hw.
      destruct (Qeq_bool (py_sum (values nr)) 0) eqn:B.
      { apply Qeq_bool_iff in B. contradiction. }
      injection Hw as <-.
      rewrite Forall_forall in Nn. specialize (Nn v (in_values _ _ _ Hin)).
      apply Qmult_le_0_compat; [|exact Hm].
      apply Qle_shift_div_l; [exact Tp | lra]. }
    assert (Nr : forall k z,
               In (k, z) (map (fun '(asset, amount) => (asset, py_round amount))
                            shares) -> (0 <= z)%Z).
    { intros k z Hin. apply in_map_iff in Hin.
      destruct Hin as ([k' v] & [= <- <-] & Hin).
      apply py_round_nonneg. rewrite Forall_forall in Ns.
      apply Ns. eapply in_values, Hin. }
    assert (Inj : forall (d : dict Z) asset,
               (forall k z, In (k, z) d -> k <> asset -> (0 <= z)%Z) ->
               forall other amount,
                 In (other, amount) (inject_amounts d) -> other <> asset ->
                 0 <= amount).
    { intros d asset Hd other amount Hin Hne. apply in_map_iff in Hin.
      destruct Hin as ([k z] & [= <- <-] & Hin).
      change 0 with (inject_Z 0). rewrite <- Zle_Qle. eapply Hd; eauto. }
    destruct Hfinal as [->|(biggest & old & _ & ->)].
    + exists ""%string. apply Inj. intros k z Hin _. eapply Nr, Hin.
    + exists biggest. apply Inj. intros k z Hin Hne.
      eapply Nr, dict_set_other; eauto.
Qed.

(** ** Weights *)

Lemma py_sum_ge_member (l : list Q) (v : Q) :
  Forall (fun x => 0 <= x) l -> In v l -> v <= py_sum l.
Proof.
  induction 1 as [|x l Hx Hl IH]; [intros []|].
  rewrite py_sum_cons. pose proof (py_sum_nonneg l Hl) as S.
  intros [->|Hv]; [lra|]. specialize (IH Hv). lra.
Qed.

(** X5: when no holding is negative, every current weight lies between 0
    and 1. *)
Theorem current_weights_in_unit_interval (p : Portfolio) :
  nonnegative_values (holdings p) ->
  Forall (fun w => 0 <= w <= 1) (values (current_weights p)).
Proof.
  intros N. unfold current_weights.
  destruct (Qeq_bool (total_value p) 0) eqn:E.
  - unfold values. rewrite map_map. apply Forall_forall.
    intros w Hw. apply in_map_iff in Hw. destruct Hw as ([k v] & <- & _).
    cbn [snd]. lra.
  - apply Qeq_bool_neq in E.
    pose proof (py_sum_nonneg _ N) as T. fold (total_value p) in T.
    assert (Tp : 0 < total_value p) by lra.
    unfold values. rewrite map_map. apply Forall_forall.
    intros w Hw. apply in_map_iff in Hw. destruct Hw as ([k v] & <- & Hin).
    cbn [snd].
    assert (V0 : 0 <= v).
    { unfold nonnegative_values in N. rewrite Forall_forall in N.
      apply N. eapply in_values, Hin. }
    assert (V1 : v <= total_value p).
    { apply py_sum_ge_member; [exact N | eapply in_values, Hin]. }
    split.
    + apply Qle_shift_div_l; [exact Tp | lra].
    + apply Qle_shift_div_r; [exact Tp | lra].
Qed.

(** ** More on the simulators *)

Lemma Qpower_succ_nat (g : Q) (n : nat) :
  g ^ Z.of_nat (S n) == g * g ^ Z.of_nat n.
Proof.
  rewrite Nat2Z.inj_succ. unfold Z.succ.
  rewrite Qpower_plus' by lia. rewrite Qpower_1_r. ring.
Qed.

(** The annuity recurrence of the constant loop, without a division. *)
Lemma final_from_closed_form (g c : Q) (ms : list Z) (value : Q) :
  final_from g (fun _ => c) ms value * (g - 1)
  == value * g ^ Z.of_nat (List.length ms) * (g - 1)
     + c * g * (g ^ Z.of_nat (List.length ms) - 1).
Proof.
  revert value. induction ms as [|m ms IH]; intros value.
  - cbn [final_from List.length Z.of_nat]. change (g ^ 0) with 1. ring.
  - cbn [final_from List.length]. rewrite IH, Qpower_succ_nat. ring.
Qed.

Lemma final_from_sum (c : Z -> Q) (ms : list Z) (value : Q) :
  final_from 1 c ms value == value + py_sum (map c ms).
Proof.
  revert value. induction ms as [|m ms IH]; intros value.
  - unfold py_sum. simpl. ring.
  - cbn [final_from map]. rewrite IH, py_sum_cons. ring.
Qed.

Lemma py_sum_app (l l' : list Q) : py_sum (l ++ l') == py_sum l + py_sum l'.
Proof.
  induction l as [|x l IH]; [unfold py_sum at 2; simpl; ring|].
  cbn [app]. rewrite !py_sum_cons, IH. ring.
Qed.

(** The sum of an arithmetic progression over [range]. *)
Lemma py_sum_arithmetic (a b : Q) (n : nat) :
  py_sum (map (fun m => a + b * inject_Z m) (map Z.of_nat (seq 0 n)))
  == inject_Z (Z.of_nat n) * a
     + b * (inject_Z (Z.of_nat n) * (inject_Z (Z.of_nat n) - 1) / 2).
Proof.
  induction n as [|n IH].
  - unfold py_sum. simpl. unfold Qdiv. ring.
  - rewrite seq_S, !map_app, py_sum_app, IH. cbn [map plus].
    rewrite py_sum_cons. unfold py_sum at 1. cbn [fold_left].
    rewrite Nat2Z.inj_succ. unfold Z.succ. rewrite inject_Z_plus.
    change (inject_Z 1) with 1. field.
Qed.

Lemma range_positive (n : Z) : Z.of_nat (List.length (range n)) = Z.max 0 n.
Proof. rewrite range_length. lia. Qed.

Lemma in_range (n m : Z) : In m (range n) -> (0 <= m < n)%Z.
Proof.
  unfold range. intros H. apply in_map_iff in H.
  destruct H as (i & <- & Hi). apply in_seq in Hi. lia.
Qed.

Section MoreSimulatorFacts.

Variable pow_twelfth : Q -> Q.

(** X6: each simulator raises the invalid-input error exactly when [years]
    is not positive. *)
Theorem simulators_reject_years (a b c d : Q) (years : Z) :
  (raises_invalid_input (simulate_constant_plan pow_twelfth a b years c d)
   <-> (years <= 0)%Z)
  /\ (raises_invalid_input (simulate_dca_ramp pow_twelfth a b years c d)
      <-> (years <= 0)%Z).
Proof.
  split.
  - unfold simulate_constant_plan.
    destruct (Z.leb_spec years 0) as [H|H].
    + split; [auto | intros _; eexists; reflexivity].
    + split; [intros [msg E]; discriminate | lia].
  - unfold simulate_dca_ramp.
    destruct (Z.leb_spec (years * 12) 0) as [H|H].
    + split; [lia | intros _; eexists; reflexivity].
    + split; [intros [msg E]; discriminate | lia].
Qed.

(** X7: the final value [v] of the constant plan obeys the annuity formula
    with payments at the start of each month: with [g = 1 + r_m] and
    [n = years * 12], (g - 1) v = (g - 1) g^n start + C g (g^n - 1); and when
    [g] is 1, v = start + n C. *)
Theorem constant_plan_closed_form
    (current_total C : Q) (years : Z) (annual_return extra_savings : Q) :
  (0 < years)%Z ->
  exists v tr,
    simulate_constant_plan pow_twelfth current_total C years annual_return
      extra_savings = Ok (v, tr)
    /\ (let g := 1 + (pow_twelfth (1 + annual_return) - 1) in
        let start := current_total + extra_savings in
        v * (g - 1)
        == start * g ^ (years * 12) * (g - 1) + C * g * (g ^ (years * 12) - 1))
    /\ (pow_twelfth (1 + annual_return) == 1 ->
        v == current_total + extra_savings + inject_Z (years * 12) * C).
Proof.
  intros Hy. rewrite simulate_constant_plan_ok by exact Hy.
  eexists _, _. split; [reflexivity|].
  assert (L : Z.of_nat (List.length (range (years * 12))) = (years * 12)%Z).
  { rewrite range_positive. lia. }
  split.
  - cbn zeta.
    pose proof (final_from_closed_form (growth pow_twelfth annual_return) C
                  (range (years * 12)) (current_total + extra_savings)) as P.
    rewrite L in P. exact P.
  - intros H1.
    assert (G : growth pow_twelfth annual_return == 1).
    { unfold growth. rewrite H1. ring. }
    destruct (trace_from_same (growth pow_twelfth annual_return) 1
                (fun _ => C) (fun _ => C) (range (years * 12))
                (current_total + extra_savings)
                (current_total + extra_savings) G) as [F _];
      try reflexivity.
    rewrite F, final_from_no_growth, L. reflexivity.
Qed.

(** X8: with no growth, the ramp ends on the start value plus the mean of
    the two end contributions times the number of months. *)
Theorem ramp_without_growth
    (initial_monthly final_monthly : Q) (years : Z)
    (annual_return initial_value : Q) :
  (0 < years)%Z ->
  pow_twelfth (1 + annual_return) == 1 ->
  exists v tr,
    simulate_dca_ramp pow_twelfth initial_monthly final_monthly years
      annual_return initial_value = Ok (v, tr)
    /\ v == initial_value
            + inject_Z (years * 12) * (initial_monthly + final_monthly) / 2.
Proof.
  intros Hy H1. rewrite simulate_dca_ramp_ok by exact Hy.
  eexists _, _. split; [reflexivity|].
  assert (G : growth pow_twelfth annual_return == 1).
  { unfold growth. rewrite H1. ring. }
  set (d := (final_monthly - initial_monthly) / inject_Z (years * 12 - 1)).
  destruct (trace_from_same (growth pow_twelfth annual_return) 1
              (fun m => initial_monthly
                        + (final_monthly - initial_monthly)
                          * (inject_Z m / inject_Z (years * 12 - 1)))
              (fun m => initial_monthly + d * inject_Z m)
              (range (years * 12)) initial_value initial_value G) as [F _].
  { intros m _. subst d. unfold Qdiv. ring. }
  { reflexivity. }
  rewrite F, final_from_sum. unfold range. rewrite py_sum_arithmetic.
  rewrite Z2Nat.id by lia. subst d.
  assert (N : ~ inject_Z (years * 12 - 1) == 0).
  { change 0 with (inject_Z 0). rewrite inject_Z_injective. lia. }
  unfold Z.sub in *. rewrite inject_Z_plus in *.
  change (inject_Z (- (1))) with (- (1)) in *. field. exact N.
Qed.

End MoreSimulatorFacts.

(** ** Order along the months *)

Lemma final_from_monotone_in g c1 c2 ms v1 v2 :
  0 <= g -> (forall m, In m ms -> c1 m <= c2 m) -> v1 <= v2 ->
  final_from g c1 ms v1 <= final_from g c2 ms v2.
Proof.
  intros Hg. revert v1 v2. induction ms as [|m ms IH]; intros v1 v2 Hc Hv.
  - exact Hv.
  - cbn [final_from]. apply IH.
    + intros k Hk. apply Hc. now right.
    + apply Qmult_le_compat_r; [|exact Hg].
      specialize (Hc m (or_introl eq_refl)). lra.
Qed.

Lemma trace_from_never_decreases g c ms value :
  1 <= g -> 0 <= value -> (forall m, In m ms -> 0 <= c m) ->
  never_decreases value (trace_from g c ms value).
Proof.
  intros Hg. revert value. induction ms as [|m ms IH]; intros value Hv Hc i Hi.
  - simpl in Hi. lia.
  - cbn [trace_from] in *.
    assert (C0 : 0 <= c m) by (apply Hc; now left).
    assert (Up : value <= (value + c m) * g).
    { assert (0 <= (value + c m) * (g - 1))
        by (apply Qmult_le_0_compat; lra).
      lra. }
    destruct i as [|i]; [exact Up|].
    cbn [List.length] in Hi. cbn [nth].
    apply (IH ((value + c m) * g)); [lra | | lia].
    intros k Hk. apply Hc. now right.
Qed.

(** The weight [m / (months - 1)] of the final contribution in month [m]. *)
Lemma ramp_weight_bounds (months m : Z) :
  (1 < months)%Z -> (0 <= m < months)%Z ->
  0 <= inject_Z m / inject_Z (months - 1) <= 1.
Proof.
  intros Hn Hm.
  assert (D : 0 < inject_Z (months - 1)).
  { change 0 with (inject_Z 0). rewrite <- Zlt_Qlt. lia. }
  split.
  - apply Qle_shift_div_l; [exact D|]. rewrite Qmult_0_l.
    change 0 with (inject_Z 0). rewrite <- Zle_Qle. lia.
  - apply Qle_shift_div_r; [exact D|]. rewrite Qmult_1_l.
    rewrite <- Zle_Qle. lia.
Qed.

Lemma ramp_contribution_monotone (i1 i2 f1 f2 t : Q) :
  0 <= t <= 1 -> i1 <= i2 -> f1 <= f2 ->
  i1 + (f1 - i1) * t <= i2 + (f2 - i2) * t.
Proof.
  intros [T0 T1] Hi Hf.
  assert (A : 0 <= (i2 - i1) * (1 - t)) by (apply Qmult_le_0_compat; lra).
  assert (B : 0 <= (f2 - f1) * t) by (apply Qmult_le_0_compat; lra).
  lra.
Qed.

Lemma ramp_contribution_nonneg (i f t : Q) :
  0 <= t <= 1 -> 0 <= i -> 0 <= f -> 0 <= i + (f - i) * t.
Proof.
  intros T Hi Hf.
  pose proof (ramp_contribution_monotone 0 i 0 f t T Hi Hf) as M.
  lra.
Qed.

Section OrderFacts.

Variable pow_twelfth : Q -> Q.
Hypothesis pow_twelfth_ge_one : forall x, 1 <= x -> 1 <= pow_twelfth x.

Lemma growth_ge_one annual_return :
  0 <= annual_return -> 1 <= growth pow_twelfth annual_return.
Proof.
  intros Ha. unfold growth.
  assert (1 <= pow_twelfth (1 + annual_return))
    by (apply pow_twelfth_ge_one; lra).
  lra.
Qed.

(** X9: for a positive number of years and an annual return that is not
    negative, the final value of the ramp does not decrease when the initial
    contribution, the final contribution or the start value grows. *)
Theorem simulate_dca_ramp_monotone
    (years : Z) (annual_return i1 i2 f1 f2 v1 v2 : Q) :
  (0 < years)%Z -> 0 <= annual_return -> i1 <= i2 -> f1 <= f2 -> v1 <= v2 ->
  exists r1 tr1 r2 tr2,
    simulate_dca_ramp pow_twelfth i1 f1 years annual_return v1 = Ok (r1, tr1)
    /\ simulate_dca_ramp pow_twelfth i2 f2 years annual_return v2
       = Ok (r2, tr2)
    /\ r1 <= r2.
Proof.
  intros Hy Ha Hi Hf Hv.
  rewrite !simulate_dca_ramp_ok by exact Hy.
  eexists _, _, _, _. split; [reflexivity|]. split; [reflexivity|].
  apply final_from_monotone_in.
  - pose proof (growth_ge_one annual_return Ha). lra.
  - intros m Hm. apply in_range in Hm.
    apply ramp_contribution_monotone; [|exact Hi | exact Hf].
    apply ramp_weight_bounds; lia.
  - exact Hv.
Qed.

(** X10: for a positive number of years, an annual return, a start value and
    contributions that are not negative, the value never goes down from one
    month to the next, in either simulator. *)
Theorem simulated_value_never_decreases (years : Z) (annual_return : Q) :
  (0 < years)%Z -> 0 <= annual_return ->
  (forall current_total C extra_savings,
     0 <= current_total + extra_savings -> 0 <= C ->
     exists v tr,
       simulate_constant_plan pow_twelfth current_total C years annual_return
         extra_savings = Ok (v, tr)
       /\ never_decreases (current_total + extra_savings) tr)
  /\ (forall initial_monthly final_monthly initial_value,
        0 <= initial_value -> 0 <= initial_monthly -> 0 <= final_monthly ->
        exists v tr,
          simulate_dca_ramp pow_twelfth initial_monthly final_monthly years
            annual_return initial_value = Ok (v, tr)
          /\ never_decreases initial_value tr).
Proof.
  intros Hy Ha. pose proof (growth_ge_one annual_return Ha) as G. split.
  - intros ct C extra Hs HC.
    rewrite simulate_constant_plan_ok by exact Hy.
    eexists _, _. split; [reflexivity|].
    apply trace_from_never_decreases; auto.
  - intros i f v0 Hv Hi Hf.
    rewrite simulate_dca_ramp_ok by exact Hy.
    eexists _, _. split; [reflexivity|].
    apply trace_from_never_decreases; auto.
    intros m Hm. apply in_range in Hm.
    apply ramp_contribution_nonneg; [|exact Hi | exact Hf].
    apply ramp_weight_bounds; lia.
Qed.

End OrderFacts.

(** ** Rounding keeps the order *)

Lemma py_round_monotone (x y : Q) : x <= y -> (py_round x <= py_round y)%Z.
Proof.
  intros H. pose proof (Qfloor_resp_le _ _ H) as F.
  destruct (Z.eq_dec (Qfloor x) (Qfloor y)) as [E|N].
  - unfold py_round. rewrite E.
    destruct (Qcompare_spec (x - inject_Z (Qfloor y)) (1 # 2)) as [Cx|Cx|Cx];
      destruct (Qcompare_spec (y - inject_Z (Qfloor y)) (1 # 2)) as [Cy|Cy|Cy];
      try destruct (Z.even (Qfloor y)); try lia; exfalso; lra.
  - pose proof (py_round_le_floor_succ x). pose proof (py_round_ge_floor y).
    lia.
Qed.

Lemma py_round_close (x y : Q) :
  x <= y -> y - x < 1 -> (py_round y - py_round x <= 1)%Z.
Proof.
  intros H W.
  pose proof (py_round_error x) as Ex. pose proof (py_round_error y) as Ey.
  apply Qabs_Qle_condition in Ex. apply Qabs_Qle_condition in Ey.
  assert (L : inject_Z (py_round y - py_round x) < inject_Z 2).
  { unfold Z.sub. rewrite inject_Z_plus, inject_Z_opp.
    change (inject_Z 2) with 2. lra. }
  rewrite <- Zlt_Qlt in L. lia.
Qed.

(** ** The search loop *)

(** After [n] halvings the bracket lies within the first one, its width is
    the first width over [2 ^ n], and each end is either the end it started
    from or a point the objective was evaluated at, below the goal for the
    lower end and at or above it for the upper end. *)
Lemma bisection_bracket (f : Q -> result Q) (objetivo : Q) (n : nat)
    (low high : Q) :
  (forall x, returns (f x)) -> low <= high ->
  exists l h,
    bisection f objetivo n low high = Ok (l, h)
    /\ low <= l /\ l <= h /\ h <= high
    /\ (h - l) * 2 ^ Z.of_nat n == high - low
    /\ (l = low \/ exists a, f l = Ok a /\ a < objetivo)
    /\ (h = high \/ exists b, f h = Ok b /\ objetivo <= b).
Proof.
  intros Hf. revert low high. induction n as [|n IH]; intros low high Hlh.
  - exists low, high. cbn [bisection Z.of_nat]. change (2 ^ 0) with 1.
    repeat split; auto; try lra.
  - cbn [bisection]. destruct (Hf ((low + high) / 2)) as [v Ev].
    rewrite Ev. cbn [bind].
    assert (M : low <= (low + high) / 2 <= high).
    { split; [apply Qle_shift_div_l | apply Qle_shift_div_r]; lra. }
    assert (W : (high - low) == 2 * (high - (low + high) / 2)
                /\ (high - low) == 2 * ((low + high) / 2 - low)).
    { split; field. }
    destruct (Qlt_bool v objetivo) eqn:B.
    + apply Qlt_bool_iff in B.
      destruct (IH ((low + high) / 2) high)
        as (l & h & E & A1 & A2 & A3 & Wd & L & H);
        [lra|].
      exists l, h. rewrite E, Qpower_succ_nat.
      repeat split; auto; try lra.
      right. destruct L as [->|L]; [eauto | exact L].
    + apply Qlt_bool_false_iff in B.
      destruct (IH low ((low + high) / 2))
        as (l & h & E & A1 & A2 & A3 & Wd & L & H);
        [lra|].
      exists l, h. rewrite E, Qpower_succ_nat.
      repeat split; auto; try lra.
      right. destruct H as [->|H]; [eauto | exact H].
Qed.

Lemma py_max_cases_tax (final principal : Q) :
  (principal < final /\ py_max 0 (final - principal) = final - principal)
  \/ (final <= principal /\ py_max 0 (final - principal) = 0).
Proof.
  unfold py_max. destruct (Qlt_bool 0 (final - principal)) eqn:E.
  - apply Qlt_bool_iff in E. left. split; [lra | reflexivity].
  - apply Qlt_bool_false_iff in E. right. split; [lra | reflexivity].
Qed.

(** What the tax on the gain leaves. *)
Lemma net_of_tax_bounds (final principal tax_rate : Q) :
  0 <= tax_rate <= 1 ->
  let net := final - tax_rate * py_max 0 (final - principal) in
  net <= final
  /\ (principal <= final -> principal <= net)
  /\ (final <= principal -> net == final).
Proof.
  intros [T0 T1] net. subst net.
  destruct (py_max_cases_tax final principal) as [[Hx ->]|[Hx ->]].
  - assert (A : 0 <= tax_rate * (final - principal))
      by (apply Qmult_le_0_compat; lra).
    assert (B : 0 <= (1 - tax_rate) * (final - principal))
      by (apply Qmult_le_0_compat; lra).
    repeat split; intros; try lra.
  - repeat split; intros; lra.
Qed.

(** ** The goal solvers *)

Section GoalSolverFacts.

Variable pow_twelfth : Q -> Q.

Lemma clamp_is_max (z : Z) : (if (z <? 0)%Z then 0%Z else z) = Z.max 0 z.
Proof. destruct (Z.ltb_spec z 0); lia. Qed.

(** The objective of the constant solver only sees the rounded candidate. *)
Lemma net_final_with_monthly_rounds current_total years annual_return
    extra_savings tax_rate months C :
  net_final_with_monthly pow_twelfth current_total years annual_return
    extra_savings tax_rate months (inject_Z (py_round C))
  = net_final_with_monthly pow_twelfth current_total years annual_return
      extra_savings tax_rate months C.
Proof. unfold net_final_with_monthly. now rewrite py_round_inject. Qed.

(** X11: with a tax rate between 0 and 1, the net final value of either
    objective is at most the simulated final value, is at least the principal
    paid in whenever the final value is, and is the final value itself when
    there is no gain. *)
Theorem net_final_between_principal_and_final
    (current_total : Q) (years : Z)
    (annual_return extra_savings tax_rate : Q) :
  (0 < years)%Z -> 0 <= tax_rate <= 1 ->
  (forall months C,
     let C_int := Z.max 0 (py_round C) in
     let principal :=
       current_total + extra_savings + inject_Z (C_int * months) in
     exists net final tr,
       net_final_with_monthly pow_twelfth current_total years annual_return
         extra_savings tax_rate months C = Ok net
       /\ simulate_constant_plan pow_twelfth current_total (inject_Z C_int)
            years annual_return extra_savings = Ok (final, tr)
       /\ net <= final
       /\ (principal <= final -> principal <= net)
       /\ (final <= principal -> net == final))
  /\ (forall initial_monthly months_total final_monthly,
        let principal :=
          current_total + extra_savings
          + inject_Z months_total * (initial_monthly + final_monthly) / 2 in
        exists net final tr,
          net_final_con_final_monthly pow_twelfth current_total years
            annual_return initial_monthly extra_savings tax_rate months_total
            final_monthly = Ok net
          /\ simulate_dca_ramp pow_twelfth initial_monthly final_monthly years
               annual_return (current_total + extra_savings) = Ok (final, tr)
          /\ net <= final
          /\ (principal <= final -> principal <= net)
          /\ (final <= principal -> net == final)).
Proof.
  intros Hy Ht. split.
  - intros months C C_int principal. subst C_int principal.
    unfold net_final_with_monthly. rewrite clamp_is_max.
    rewrite simulate_constant_plan_ok by exact Hy. cbn [bind].
    eexists _, _, _. split; [reflexivity|]. split; [reflexivity|].
    apply net_of_tax_bounds. exact Ht.
  - intros i months f principal. subst principal.
    unfold net_final_con_final_monthly.
    rewrite simulate_dca_ramp_ok by exact Hy. cbn [bind].
    eexists _, _, _. split; [reflexivity|]. split; [reflexivity|].
    apply net_of_tax_bounds. exact Ht.
Qed.

(** On valid inputs the constant solver either stops at once with 0 or
    returns the rounded upper end of the bracket after 40 halvings. *)
Lemma required_constant_result current_total objetivo_final years annual_return
    extra_savings tax_rate :
  (0 < years)%Z -> 0 <= annual_return -> 0 <= tax_rate <= 1 ->
  let f := net_final_with_monthly pow_twelfth current_total years
             annual_return extra_savings tax_rate (years * 12) in
  let high0 := py_max (objetivo_final / inject_Z (years * 12) * 2) 5000 in
  let r := required_constant_monthly_for_goal pow_twelfth current_total
             objetivo_final years annual_return extra_savings tax_rate in
  exists net0,
    f 0 = Ok net0
    /\ ((objetivo_final <= net0 /\ r = Ok 0%Z)
        \/ (net0 < objetivo_final
            /\ exists l h,
                 bisection f objetivo_final 40 0 high0 = Ok (l, h)
                 /\ r = Ok (py_round h))).
Proof.
  intros Hy Ha [Ht0 Ht1] f high0 r. subst r.
  unfold required_constant_monthly_for_goal.
  destruct (Z.leb_spec years 0) as [H|_]; [lia|].
  rewrite (proj2 (Qlt_bool_false_iff annual_return 0) Ha).
  rewrite (proj2 (Qle_bool_iff 0 tax_rate) Ht0).
  rewrite (proj2 (Qle_bool_iff tax_rate 1) Ht1).
  cbn [andb negb]. rewrite Z.max_l by lia. fold f. fold high0.
  destruct (net_final_with_monthly_ok pow_twelfth current_total years
              annual_return extra_savings tax_rate (years * 12) 0 Hy)
    as [net0 E0].
  fold f in E0. exists net0. split; [exact E0|]. rewrite E0. cbn [bind].
  destruct (Qle_bool objetivo_final net0) eqn:B.
  - left. apply Qle_bool_iff in B. split; [exact B | reflexivity].
  - right. split.
    { apply Qnot_le_lt. rewrite <- Qle_bool_iff, B. discriminate. }
    destruct (bisection_ok f objetivo_final 40 0 high0) as [[l h] Eb].
    { intros x. now apply net_final_with_monthly_ok. }
    exists l, h. split; [exact Eb|]. rewrite Eb. reflexivity.
Qed.

Lemma search_bound_nonneg (x : Q) : 0 <= py_max x 5000.
Proof. pose proof (py_max_ge_right x 5000). lra. Qed.

(** X12: on valid inputs the monthly amount the constant solver returns is
    not negative and exceeds the upper end of the search,
    [max(objetivo_final / months * 2, 5000)], by at most 1/2. *)
Theorem required_constant_within_search_range
    (current_total objetivo_final : Q) (years : Z)
    (annual_return extra_savings tax_rate : Q) :
  (0 < years)%Z -> 0 <= annual_return -> 0 <= tax_rate <= 1 ->
  exists monthly,
    required_constant_monthly_for_goal pow_twelfth current_total
      objetivo_final years annual_return extra_savings tax_rate = Ok monthly
    /\ (0 <= monthly)%Z
    /\ inject_Z monthly
       <= py_max (objetivo_final / inject_Z (years * 12) * 2) 5000 + (1 # 2).
Proof.
  intros Hy Ha Ht.
  pose proof (search_bound_nonneg
                (objetivo_final / inject_Z (years * 12) * 2)) as Hb.
  destruct (required_constant_result current_total objetivo_final years
              annual_return extra_savings tax_rate Hy Ha Ht)
    as (net0 & _ & [[_ ->]|(_ & l & h & Eb & ->)]).
  - exists 0%Z. split; [reflexivity|]. split; [lia|].
    change (inject_Z 0) with 0. lra.
  - eexists. split; [reflexivity|].
    destruct (bisection_bracket _ objetivo_final 40 0 _
                (fun x => net_final_with_monthly_ok pow_twelfth current_total
                            years annual_return extra_savings tax_rate
                            (years * 12) x Hy) Hb)
      as (l' & h' & Eb' & L1 & L2 & L3 & _).
    rewrite Eb in Eb'. injection Eb' as <- <-.
    split; [apply py_round_nonneg; lra|].
    pose proof (py_round_error h) as R. apply Qabs_Qle_condition in R. lra.
Qed.

(** X13: on valid inputs, if the upper end of the search reaches the goal,
    so does the monthly amount the constant solver returns. *)
Theorem required_constant_reaches_goal
    (current_total objetivo_final : Q) (years : Z)
    (annual_return extra_savings tax_rate reached : Q) :
  (0 < years)%Z -> 0 <= annual_return -> 0 <= tax_rate <= 1 ->
  net_final_with_monthly pow_twelfth current_total years annual_return
    extra_savings tax_rate (years * 12)
    (py_max (objetivo_final / inject_Z (years * 12) * 2) 5000) = Ok reached ->
  objetivo_final <= reached ->
  exists monthly net,
    required_constant_monthly_for_goal pow_twelfth current_total
      objetivo_final years annual_return extra_savings tax_rate = Ok monthly
    /\ net_final_with_monthly pow_twelfth current_total years annual_return
         extra_savings tax_rate (years * 12) (inject_Z monthly) = Ok net
    /\ objetivo_final <= net.
Proof.
  intros Hy Ha Ht Hr Hreach.
  pose proof (search_bound_nonneg
                (objetivo_final / inject_Z (years * 12) * 2)) as Hb.
  destruct (required_constant_result current_total objetivo_final years
              annual_return extra_savings tax_rate Hy Ha Ht)
    as (net0 & E0 & [[G ->]|(_ & l & h & Eb & ->)]).
  - exists 0%Z, net0. split; [reflexivity|]. split; [exact E0 | exact G].
  - destruct (bisection_bracket _ objetivo_final 40 0 _
                (fun x => net_final_with_monthly_ok pow_twelfth current_total
                            years annual_return extra_savings tax_rate
                            (years * 12) x Hy) Hb)
      as (l' & h' & Eb' & _ & _ & _ & _ & _ & H).
    rewrite Eb in Eb'. injection Eb' as <- <-.
    destruct H as [->|(b & Eh & Hb')].
    + exists (py_round (py_max (objetivo_final / inject_Z (years * 12) * 2)
                          5000)), reached.
      split; [reflexivity|]. rewrite net_final_with_monthly_rounds.
      split; [exact Hr | exact Hreach].
    + exists (py_round h), b. split; [reflexivity|].
      rewrite net_final_with_monthly_rounds. split; assumption.
Qed.

(** X14: on valid inputs with a goal below [months * 2 ^ 39] that the upper
    end of the search reaches, the amount returned is the threshold: it is
    0, or the amount one unit lower misses the goal. *)
Theorem required_constant_is_threshold
    (current_total objetivo_final : Q) (years : Z)
    (annual_return extra_savings tax_rate reached : Q) :
  (0 < years)%Z -> 0 <= annual_return -> 0 <= tax_rate <= 1 ->
  objetivo_final < inject_Z (years * 12) * 2 ^ 39 ->
  net_final_with_monthly pow_twelfth current_total years annual_return
    extra_savings tax_rate (years * 12)
    (py_max (objetivo_final / inject_Z (years * 12) * 2) 5000) = Ok reached ->
  objetivo_final <= reached ->
  exists monthly,
    required_constant_monthly_for_goal pow_twelfth current_total
      objetivo_final years annual_return extra_savings tax_rate = Ok monthly
    /\ (monthly = 0%Z
        \/ exists net,
             net_final_with_monthly pow_twelfth current_total years
               annual_return extra_savings tax_rate (years * 12)
               (inject_Z (monthly - 1)) = Ok net
             /\ net < objetivo_final).
Proof.
  intros Hy Ha Ht Hsmall Hr Hreach.
  set (f := net_final_with_monthly pow_twelfth current_total years
              annual_return extra_savings tax_rate (years * 12)) in *.
  set (high0 := py_max (objetivo_final / inject_Z (years * 12) * 2) 5000) in *.
  assert (Hb : 0 <= high0) by apply search_bound_nonneg.
  assert (Hh : high0 < 2 ^ 40).
  { assert (M : 0 < inject_Z (years * 12)).
    { change 0 with (inject_Z 0). rewrite <- Zlt_Qlt. lia. }
    assert (X : objetivo_final / inject_Z (years * 12) < 2 ^ 39)
      by (apply Qlt_shift_div_r; [exact M | lra]).
    assert (P : 2 ^ 40 == 2 * 2 ^ 39) by reflexivity.
    subst high0. unfold py_max.
    destruct (Qlt_bool _ 5000); [reflexivity | lra]. }
  destruct (required_constant_result current_total objetivo_final years
              annual_return extra_savings tax_rate Hy Ha Ht)
    as (net0 & E0 & [[G ->]|(G & l & h & Eb & ->)]).
  { exists 0%Z. split; [reflexivity | now left]. }
  fold f in E0, Eb. fold high0 in Eb.
  destruct (bisection_bracket f objetivo_final 40 0 high0
              (fun x => net_final_with_monthly_ok pow_twelfth current_total
                          years annual_return extra_savings tax_rate
                          (years * 12) x Hy) Hb)
    as (l' & h' & Eb' & L1 & L2 & L3 & W & L & H).
  rewrite Eb in Eb'. injection Eb' as <- <-.
  eexists. split; [reflexivity|]. right.
  assert (Fl : exists a, f l = Ok a /\ a < objetivo_final).
  { destruct L as [->|L]; [eauto | exact L]. }
  assert (Fh : exists b, f h = Ok b /\ objetivo_final <= b).
  { destruct H as [->|H]; [eauto | exact H]. }
  destruct Fl as (a & Ea & Hlow). destruct Fh as (b & Eh & Hhigh).
  assert (Wd : h - l < 1).
  { change (Z.of_nat 40) with 40%Z in W.
    assert (P0 : 0 < 2 ^ 40) by reflexivity.
    set (P := 2 ^ 40) in *.
    destruct (Qlt_le_dec (h - l) 1) as [Y|Y]; [exact Y|].
    assert (P <= (h - l) * P).
    { setoid_replace P with (1 * P) at 1 by ring.
      apply Qmult_le_compat_r; lra. }
    lra. }
  assert (Ne : py_round l <> py_round h).
  { intros E.
    assert (C : f l = f h).
    { subst f. rewrite <- (net_final_with_monthly_rounds _ _ _ _ _ _ l),
        <- (net_final_with_monthly_rounds _ _ _ _ _ _ h), E. reflexivity. }
    rewrite Ea, Eh in C. injection C as ->. lra. }
  pose proof (py_round_monotone l h L2) as Mo.
  pose proof (py_round_close l h L2 Wd) as Cl.
  assert (R : (py_round h - 1 = py_round l)%Z) by lia.
  exists a. split; [|exact Hlow].
  rewrite R. subst f. rewrite net_final_with_monthly_rounds. exact Ea.
Qed.

End GoalSolverFacts.

(** ** The growing solver and its yearly summary *)

Lemma range_from_years (years : Z) :
  (0 < years)%Z ->
  exists n,
    Z.of_nat (S n) = years
    /\ range_from 1 (years + 1)
       = map (fun i => (1 + Z.of_nat i)%Z) (seq 0 n) ++ [years].
Proof.
  intros Hy. exists (Z.to_nat (years - 1)). split; [lia|].
  unfold range_from.
  replace (Z.to_nat (years + 1 - 1)) with (S (Z.to_nat (years - 1))) by lia.
  rewrite seq_S, map_app. cbn [map plus]. do 3 f_equal. lia.
Qed.

Lemma in_range_from (a b y : Z) : In y (range_from a b) -> (a <= y < b)%Z.
Proof.
  unfold range_from. intros H. apply in_map_iff in H.
  destruct H as (i & <- & Hi). apply in_seq in Hi. lia.
Qed.

(** The four fields of a summary entry. *)
Lemma resumen_fields (y s e a : Z) :
  let entry := [("year"%string, y); ("start"%string, s); ("end"%string, e);
                ("avg"%string, a)] in
  dict_get entry "year" = Ok y /\ dict_get entry "start" = Ok s
  /\ dict_get entry "end" = Ok e /\ dict_get entry "avg" = Ok a.
Proof. repeat split. Qed.

(** The ramp of the summary at a month index. *)
Lemma summary_ramp_monotone (initial target : Q) (months i j : Z) :
  (1 < months)%Z -> (0 <= i <= j)%Z ->
  (initial <= target ->
   initial + (target - initial) * (inject_Z i / inject_Z (months - 1))
   <= initial + (target - initial) * (inject_Z j / inject_Z (months - 1)))
  /\ (target <= initial ->
      initial + (target - initial) * (inject_Z j / inject_Z (months - 1))
      <= initial + (target - initial) * (inject_Z i / inject_Z (months - 1))).
Proof.
  intros Hn Hij.
  assert (D : 0 < inject_Z (months - 1)).
  { change 0 with (inject_Z 0). rewrite <- Zlt_Qlt. lia. }
  assert (T : inject_Z i / inject_Z (months - 1)
              <= inject_Z j / inject_Z (months - 1)).
  { apply Qmult_le_compat_r; [rewrite <- Zle_Qle; lia|].
    apply Qlt_le_weak, Qinv_lt_0_compat, D. }
  set (ti := inject_Z i / inject_Z (months - 1)) in *.
  set (tj := inject_Z j / inject_Z (months - 1)) in *.
  split; intros H.
  - assert (0 <= (target - initial) * (tj - ti))
      by (apply Qmult_le_0_compat; lra).
    lra.
  - assert (0 <= (initial - target) * (tj - ti))
      by (apply Qmult_le_0_compat; lra).
    lra.
Qed.

Lemma rounded_mean_between (s e : Z) :
  (Z.min s e <= py_round (inject_Z (s + e) / 2) <= Z.max s e)%Z.
Proof.
  assert (B : inject_Z (Z.min s e) <= inject_Z (s + e) / 2
              /\ inject_Z (s + e) / 2 <= inject_Z (Z.max s e)).
  { rewrite inject_Z_plus.
    assert (inject_Z (Z.min s e) <= inject_Z s) by (rewrite <- Zle_Qle; lia).
    assert (inject_Z (Z.min s e) <= inject_Z e) by (rewrite <- Zle_Qle; lia).
    assert (inject_Z s <= inject_Z (Z.max s e)) by (rewrite <- Zle_Qle; lia).
    assert (inject_Z e <= inject_Z (Z.max s e)) by (rewrite <- Zle_Qle; lia).
    split; [apply Qle_shift_div_l | apply Qle_shift_div_r]; lra. }
  destruct B as [B1 B2].
  apply py_round_monotone in B1. apply py_round_monotone in B2.
  rewrite py_round_inject in B1, B2. lia.
Qed.

Section GrowingSolverFacts.

Variable pow_twelfth : Q -> Q.

(** On valid inputs the growing solver returns the rounded midpoint of the
    bracket after 30 halvings, and one summary entry per year. *)
Lemma required_growing_result current_total objetivo_final years annual_return
    initial_monthly extra_savings tax_rate :
  (0 < years)%Z -> 0 <= annual_return -> 0 <= tax_rate <= 1 ->
  exists l h,
    0 <= l /\ l <= h /\ h <= py_max (initial_monthly * 10) 5000
    /\ required_growing_monthlies_for_goal pow_twelfth current_total
         objetivo_final years annual_return initial_monthly extra_savings
         tax_rate
       = Ok (py_round ((l + h) / 2),
             map (resumen_entry initial_monthly (py_round ((l + h) / 2))
                    (years * 12))
               (range_from 1 (years + 1))).
Proof.
  intros Hy Ha [Ht0 Ht1].
  unfold required_growing_monthlies_for_goal.
  destruct (Z.leb_spec years 0) as [H|_]; [lia|].
  rewrite (proj2 (Qlt_bool_false_iff annual_return 0) Ha).
  rewrite (proj2 (Qle_bool_iff 0 tax_rate) Ht0).
  rewrite (proj2 (Qle_bool_iff tax_rate 1) Ht1).
  cbn [andb negb].
  destruct (bisection_bracket
              (net_final_con_final_monthly pow_twelfth current_total years
                 annual_return initial_monthly extra_savings tax_rate
                 (years * 12))
              objetivo_final 30 0 (py_max (initial_monthly * 10) 5000)
              (fun x => net_final_con_final_monthly_ok pow_twelfth
                          current_total years annual_return initial_monthly
                          extra_savings tax_rate (years * 12) x Hy)
              (search_bound_nonneg _))
    as (l & h & Eb & L1 & L2 & L3 & _).
  rewrite Eb. cbn [bind]. exists l, h. repeat split; auto.
Qed.

(** X15: on valid inputs the final monthly amount the growing solver returns
    is not negative and exceeds the upper end of the search,
    [max(initial_monthly * 10, 5000)], by at most 1/2. *)
Theorem required_growing_within_search_range
    (current_total objetivo_final : Q) (years : Z)
    (annual_return initial_monthly extra_savings tax_rate : Q) :
  (0 < years)%Z -> 0 <= annual_return -> 0 <= tax_rate <= 1 ->
  exists final_monthly_aprox resumen_anual,
    required_growing_monthlies_for_goal pow_twelfth current_total
      objetivo_final years annual_return initial_monthly extra_savings
      tax_rate = Ok (final_monthly_aprox, resumen_anual)
    /\ (0 <= final_monthly_aprox)%Z
    /\ inject_Z final_monthly_aprox
       <= py_max (initial_monthly * 10) 5000 + (1 # 2).
Proof.
  intros Hy Ha Ht.
  destruct (required_growing_result current_total objetivo_final years
              annual_return initial_monthly extra_savings tax_rate Hy Ha Ht)
    as (l & h & L1 & L2 & L3 & ->).
  eexists _, _. split; [reflexivity|].
  assert (M : 0 <= (l + h) / 2 <= py_max (initial_monthly * 10) 5000).
  { split; [apply Qle_shift_div_l | apply Qle_shift_div_r]; lra. }
  destruct M as [M0 M1].
  split; [apply py_round_nonneg; exact M0|].
  pose proof (py_round_error ((l + h) / 2)) as R.
  apply Qabs_Qle_condition in R.
  set (mid := (l + h) / 2) in *. lra.
Qed.

(** X16: on valid inputs the yearly summary has one entry per year, numbered
    from 1; the first entry starts at the rounded initial contribution and
    the last entry ends at the final monthly amount returned. *)
Theorem resumen_anual_covers_the_years
    (current_total objetivo_final : Q) (years : Z)
    (annual_return initial_monthly extra_savings tax_rate : Q) :
  (0 < years)%Z -> 0 <= annual_return -> 0 <= tax_rate <= 1 ->
  exists final_monthly_aprox resumen_anual,
    required_growing_monthlies_for_goal pow_twelfth current_total
      objetivo_final years annual_return initial_monthly extra_savings
      tax_rate = Ok (final_monthly_aprox, resumen_anual)
    /\ Z.of_nat (List.length resumen_anual) = years
    /\ (forall i, (i < List.length resumen_anual)%nat ->
          dict_get (nth i resumen_anual []) "year" = Ok (Z.of_nat i + 1)%Z)
    /\ dict_get (nth 0 resumen_anual []) "start"
       = Ok (py_round initial_monthly)
    /\ dict_get (last resumen_anual []) "end" = Ok final_monthly_aprox.
Proof.
  intros Hy Ha Ht.
  destruct (required_growing_result current_total objetivo_final years
              annual_return initial_monthly extra_savings tax_rate Hy Ha Ht)
    as (l & h & _ & _ & _ & ->).
  set (fa := py_round ((l + h) / 2)).
  eexists _, _. split; [reflexivity|].
  assert (N : ~ inject_Z (years * 12 - 1) == 0).
  { change 0 with (inject_Z 0). rewrite inject_Z_injective. lia. }
  assert (M : (1 <? years * 12)%Z = true) by (apply Z.ltb_lt; lia).
  split; [|split; [|split]].
  - rewrite length_map. unfold range_from. rewrite length_map, length_seq. lia.
  - intros i Hi. rewrite length_map in Hi.
    rewrite (nth_indep _ [] (resumen_entry initial_monthly fa (years * 12) 0))
      by (now rewrite length_map).
    rewrite map_nth. unfold range_from in *.
    rewrite length_map, length_seq in Hi.
    rewrite (nth_indep _ 0%Z (1 + Z.of_nat 0)%Z)
      by (now rewrite length_map, length_seq).
    rewrite (map_nth (fun i => (1 + Z.of_nat i)%Z)), seq_nth by exact Hi.
    unfold resumen_entry. cbv zeta.
    replace (1 + Z.of_nat (0 + i))%Z with (Z.of_nat i + 1)%Z by lia.
    apply resumen_fields.
  - destruct (range_from_years years Hy) as (n & Hn & ->).
    assert (F1 : nth 0 (map (resumen_entry initial_monthly fa (years * 12))
                          (map (fun i => (1 + Z.of_nat i)%Z) (seq 0 n)
                           ++ [years])) []
                 = resumen_entry initial_monthly fa (years * 12) 1).
    { destruct n as [|n]; [|reflexivity]. cbn [seq map app nth].
      f_equal. lia. }
    rewrite F1. unfold resumen_entry. cbv zeta. rewrite M.
    change ((1 - 1) * 12)%Z with 0%Z.
    rewrite (py_round_comp _ initial_monthly).
    + apply resumen_fields.
    + unfold Qdiv. change (inject_Z 0) with 0. ring.
  - destruct (range_from_years years Hy) as (n & _ & ->).
    rewrite map_app. cbn [map]. rewrite last_last.
    unfold resumen_entry. cbv zeta. rewrite M.
    destruct (Z.leb_spec (years * 12) (years * 12 - 1)) as [H|_]; [lia|].
    rewrite (py_round_comp
               (initial_monthly
                + (inject_Z fa - initial_monthly)
                  * (inject_Z (years * 12 - 1) / inject_Z (years * 12 - 1)))
               (inject_Z fa)) by (field; exact N).
    rewrite py_round_inject. apply resumen_fields.
Qed.

End GrowingSolverFacts.

Section SummaryOrder.

Variable pow_twelfth : Q -> Q.

(** X17: in every entry of the yearly summary the average lies between the
    start and the end amounts; the start is at most the end when the amount
    returned is at least the initial contribution, and at least the end when
    it is at most the initial contribution. *)
Theorem resumen_anual_entries_ordered
    (current_total objetivo_final : Q) (years : Z)
    (annual_return initial_monthly extra_savings tax_rate : Q) :
  (0 < years)%Z -> 0 <= annual_return -> 0 <= tax_rate <= 1 ->
  exists final_monthly_aprox resumen_anual,
    required_growing_monthlies_for_goal pow_twelfth current_total
      objetivo_final years annual_return initial_monthly extra_savings
      tax_rate = Ok (final_monthly_aprox, resumen_anual)
    /\ Forall
         (fun entry =>
            exists s e a,
              dict_get entry "start" = Ok s /\ dict_get entry "end" = Ok e
              /\ dict_get entry "avg" = Ok a
              /\ (Z.min s e <= a <= Z.max s e)%Z
              /\ (initial_monthly <= inject_Z final_monthly_aprox ->
                  (s <= e)%Z)
              /\ (inject_Z final_monthly_aprox <= initial_monthly ->
                  (e <= s)%Z))
         resumen_anual.
Proof.
  intros Hy Ha Ht.
  destruct (required_growing_result pow_twelfth current_total objetivo_final
              years annual_return initial_monthly extra_savings tax_rate
              Hy Ha Ht)
    as (l & h & _ & _ & _ & ->).
  set (fa := py_round ((l + h) / 2)).
  eexists _, _. split; [reflexivity|].
  apply Forall_forall. intros entry Hin. apply in_map_iff in Hin.
  destruct Hin as (y & <- & Hy'). apply in_range_from in Hy'.
  assert (M : (1 <? years * 12)%Z = true) by (apply Z.ltb_lt; lia).
  unfold resumen_entry. cbv zeta. rewrite M.
  eexists _, _, _.
  split; [apply resumen_fields|]. split; [apply resumen_fields|].
  split; [apply resumen_fields|].
  split; [apply rounded_mean_between|].
  assert (I : (0 <= (y - 1) * 12
               <= (if (years * 12 <=? y * 12 - 1)%Z
                   then years * 12 - 1 else y * 12 - 1))%Z).
  { destruct (Z.leb_spec (years * 12) (y * 12 - 1)); lia. }
  destruct (summary_ramp_monotone initial_monthly (inject_Z fa) (years * 12)
              _ _ ltac:(lia) I) as [Up Down].
  split; intros H; apply py_round_monotone; auto.
Qed.

End SummaryOrder.

(** ** The further theorems at concrete inputs *)

Lemma two_assets_wf (a b : Q) :
  wf_dict [("A"%string, a); ("B"%string, b)].
Proof.
  unfold wf_dict. cbn [keys map fst]. repeat constructor; simpl.
  - intros [H|[]]. discriminate H.
  - intros [].
Qed.

Lemma uneven_portfolio_keys :
  key_sets_equal (keys (holdings uneven_portfolio))
    (keys (targets uneven_portfolio)).
Proof. apply same_key_set_iff. reflexivity. Qed.

Lemma caught_up_portfolio_keys :
  key_sets_equal (keys (holdings caught_up_portfolio))
    (keys (targets caught_up_portfolio)).
Proof. apply same_key_set_iff. reflexivity. Qed.

Lemma uneven_portfolio_nonnegative :
  nonnegative_values (holdings uneven_portfolio)
  /\ nonnegative_values (targets uneven_portfolio).
Proof.
  split; repeat constructor; intros H; vm_compute in H; discriminate.
Qed.

Lemma plan_one_entry_per_asset_witness :
  wf_dict (holdings uneven_portfolio) /\ wf_dict (targets uneven_portfolio)
  /\ key_sets_equal (keys (holdings uneven_portfolio))
       (keys (targets uneven_portfolio))
  /\ exists plan,
       compute_contribution_plan uneven_portfolio 200 0 = Ok plan
       /\ Permutation (keys plan) (keys (holdings uneven_portfolio)).
Proof.
  split; [apply two_assets_wf|]. split; [apply two_assets_wf|].
  split; [exact uneven_portfolio_keys|].
  exact (plan_one_entry_per_asset uneven_portfolio 200 0
           (two_assets_wf _ _) (two_assets_wf _ _) uneven_portfolio_keys).
Defined.

Lemma normalized_plan_sum_witness :
  wf_dict (holdings uneven_portfolio) /\ wf_dict (targets uneven_portfolio)
  /\ key_sets_equal (keys (holdings uneven_portfolio))
       (keys (targets uneven_portfolio))
  /\ py_sum (values (targets uneven_portfolio)) == 1
  /\ 0 <= 200
  /\ exists plan,
       compute_contribution_plan uneven_portfolio 200 0 = Ok plan
       /\ Forall is_integer (values plan)
       /\ Qabs (py_sum (values plan) - 200) <= 1 # 2
       /\ (~ halfway 200 -> py_sum (values plan) == inject_Z (py_round 200)).
Proof.
  assert (S : py_sum (values (targets uneven_portfolio)) == 1) by reflexivity.
  assert (P : 0 <= 200) by lra.
  split; [apply two_assets_wf|]. split; [apply two_assets_wf|].
  split; [exact uneven_portfolio_keys|]. split; [exact S|]. split; [exact P|].
  exact (normalized_plan_sum uneven_portfolio 200 0
           (two_assets_wf _ _) (two_assets_wf _ _) uneven_portfolio_keys S P).
Defined.

Lemma fallback_plan_sum_witness :
  wf_dict (holdings caught_up_portfolio)
  /\ wf_dict (targets caught_up_portfolio)
  /\ key_sets_equal (keys (holdings caught_up_portfolio))
       (keys (targets caught_up_portfolio))
  /\ compute_needed_raw caught_up_portfolio 20 0
     = Ok [("A"%string, 0); ("B"%string, 0)]
  /\ py_sum (values [("A"%string, 0); ("B"%string, 0)]) == 0
  /\ exists plan,
       compute_contribution_plan caught_up_portfolio 20 0 = Ok plan
       /\ keys plan = keys (holdings caught_up_portfolio)
       /\ py_sum (values plan)
          == 20 * py_sum (values (targets caught_up_portfolio)).
Proof.
  assert (N : compute_needed_raw caught_up_portfolio 20 0
              = Ok [("A"%string, 0); ("B"%string, 0)]) by reflexivity.
  assert (S : py_sum (values [("A"%string, 0); ("B"%string, 0)]) == 0)
    by reflexivity.
  split; [apply two_assets_wf|]. split; [apply two_assets_wf|].
  split; [exact caught_up_portfolio_keys|]. split; [exact N|].
  split; [exact S|].
  exact (fallback_plan_sum caught_up_portfolio 20 0 _
           (two_assets_wf _ _) (two_assets_wf _ _) caught_up_portfolio_keys
           N S).
Defined.

Lemma at_most_one_negative_amount_witness :
  key_sets_equal (keys (holdings uneven_portfolio))
    (keys (targets uneven_portfolio))
  /\ nonnegative_values (targets uneven_portfolio)
  /\ 0 <= 200
  /\ exists plan,
       compute_contribution_plan uneven_portfolio 200 0 = Ok plan
       /\ exists asset,
            forall other amount,
              In (other, amount) plan -> other <> asset -> 0 <= amount.
Proof.
  assert (P : 0 <= 200) by lra.
  split; [exact uneven_portfolio_keys|].
  split; [exact (proj2 uneven_portfolio_nonnegative)|]. split; [exact P|].
  exact (at_most_one_negative_amount uneven_portfolio 200 0
           uneven_portfolio_keys (proj2 uneven_portfolio_nonnegative) P).
Defined.

Lemma current_weights_in_unit_interval_witness :
  nonnegative_values (holdings uneven_portfolio)
  /\ Forall (fun w => 0 <= w <= 1) (values (current_weights uneven_portfolio)).
Proof.
  split; [exact (proj1 uneven_portfolio_nonnegative)|].
  exact (current_weights_in_unit_interval uneven_portfolio
           (proj1 uneven_portfolio_nonnegative)).
Defined.

Lemma pow_twelfth_tangent_no_return : pow_twelfth_tangent (1 + 0) == 1.
Proof. reflexivity. Qed.

Lemma constant_plan_closed_form_witness :
  (0 < 1)%Z
  /\ exists v tr,
       simulate_constant_plan pow_twelfth_tangent 1000 100 1 (5 # 100) 0
       = Ok (v, tr)
       /\ (let g := 1 + (pow_twelfth_tangent (1 + (5 # 100)) - 1) in
           let start := 1000 + 0 in
           v * (g - 1)
           == start * g ^ (1 * 12) * (g - 1) + 100 * g * (g ^ (1 * 12) - 1))
       /\ (pow_twelfth_tangent (1 + (5 # 100)) == 1 ->
           v == 1000 + 0 + inject_Z (1 * 12) * 100).
Proof.
  assert (Hy : (0 < 1)%Z) by lia.
  split; [exact Hy|].
  exact (constant_plan_closed_form pow_twelfth_tangent 1000 100 1 (5 # 100) 0
           Hy).
Defined.

Lemma ramp_without_growth_witness :
  (0 < 1)%Z /\ pow_twelfth_tangent (1 + 0) == 1
  /\ exists v tr,
       simulate_dca_ramp pow_twelfth_tangent 100 200 1 0 1000 = Ok (v, tr)
       /\ v == 1000 + inject_Z (1 * 12) * (100 + 200) / 2.
Proof.
  assert (Hy : (0 < 1)%Z) by lia.
  split; [exact Hy|]. split; [exact pow_twelfth_tangent_no_return|].
  exact (ramp_without_growth pow_twelfth_tangent 100 200 1 0 1000 Hy
           pow_twelfth_tangent_no_return).
Defined.

Lemma simulate_dca_ramp_monotone_witness :
  (forall x, 1 <= x -> 1 <= pow_twelfth_tangent x)
  /\ (0 < 1)%Z /\ 0 <= 5 # 100 /\ 100 <= 150 /\ 200 <= 300 /\ 0 <= 1000
  /\ exists r1 tr1 r2 tr2,
       simulate_dca_ramp pow_twelfth_tangent 100 200 1 (5 # 100) 0
       = Ok (r1, tr1)
       /\ simulate_dca_ramp pow_twelfth_tangent 150 300 1 (5 # 100) 1000
          = Ok (r2, tr2)
       /\ r1 <= r2.
Proof.
  assert (Hy : (0 < 1)%Z) by lia.
  assert (Ha : 0 <= 5 # 100) by lra.
  assert (Hi : 100 <= 150) by lra.
  assert (Hf : 200 <= 300) by lra.
  assert (Hv : 0 <= 1000) by lra.
  split; [exact pow_twelfth_tangent_ge_one|]. split; [exact Hy|].
  split; [exact Ha|]. split; [exact Hi|]. split; [exact Hf|].
  split; [exact Hv|].
  exact (simulate_dca_ramp_monotone pow_twelfth_tangent
           pow_twelfth_tangent_ge_one 1 (5 # 100) 100 150 200 300 0 1000
           Hy Ha Hi Hf Hv).
Defined.

Lemma simulated_value_never_decreases_witness :
  (forall x, 1 <= x -> 1 <= pow_twelfth_tangent x)
  /\ (0 < 1)%Z /\ 0 <= 5 # 100 /\ 0 <= 1000 + 0 /\ 0 <= 100
  /\ exists v tr,
       simulate_constant_plan pow_twelfth_tangent 1000 100 1 (5 # 100) 0
       = Ok (v, tr)
       /\ never_decreases (1000 + 0) tr.
Proof.
  assert (Hy : (0 < 1)%Z) by lia.
  assert (Ha : 0 <= 5 # 100) by lra.
  assert (Hs : 0 <= 1000 + 0) by lra.
  assert (HC : 0 <= 100) by lra.
  split; [exact pow_twelfth_tangent_ge_one|]. split; [exact Hy|].
  split; [exact Ha|]. split; [exact Hs|]. split; [exact HC|].
  exact (proj1 (simulated_value_never_decreases pow_twelfth_tangent
                  pow_twelfth_tangent_ge_one 1 (5 # 100) Hy Ha)
           1000 100 0 Hs HC).
Defined.

Lemma net_final_between_principal_and_final_witness :
  (0 < 1)%Z /\ 0 <= 1 # 5 <= 1
  /\ exists net final tr,
       net_final_with_monthly pow_twelfth_tangent 1000 1 (5 # 100) 0 (1 # 5)
         12 100 = Ok net
       /\ simulate_constant_plan pow_twelfth_tangent 1000
            (inject_Z (Z.max 0 (py_round 100))) 1 (5 # 100) 0 = Ok (final, tr)
       /\ net <= final
       /\ (1000 + 0 + inject_Z (Z.max 0 (py_round 100) * 12) <= final ->
           1000 + 0 + inject_Z (Z.max 0 (py_round 100) * 12) <= net)
       /\ (final <= 1000 + 0 + inject_Z (Z.max 0 (py_round 100) * 12) ->
           net == final).
Proof.
  assert (Hy : (0 < 1)%Z) by lia.
  assert (Ht : 0 <= 1 # 5 <= 1) by (split; lra).
  split; [exact Hy|]. split; [exact Ht|].
  exact (proj1 (net_final_between_principal_and_final pow_twelfth_tangent
                  1000 1 (5 # 100) 0 (1 # 5) Hy Ht) 12%Z 100).
Defined.

Lemma required_constant_within_search_range_witness :
  (0 < 1)%Z /\ 0 <= 0 /\ 0 <= 0 <= 1
  /\ exists monthly,
       required_constant_monthly_for_goal pow_twelfth_tangent 0 1000 1 0 0 0
       = Ok monthly
       /\ (0 <= monthly)%Z
       /\ inject_Z monthly
          <= py_max (1000 / inject_Z (1 * 12) * 2) 5000 + (1 # 2).
Proof.
  assert (Hy : (0 < 1)%Z) by lia.
  assert (Ha : 0 <= 0) by lra.
  assert (Ht : 0 <= 0 <= 1) by (split; lra).
  split; [exact Hy|]. split; [exact Ha|]. split; [exact Ht|].
  exact (required_constant_within_search_range pow_twelfth_tangent 0 1000 1
           0 0 0 Hy Ha Ht).
Defined.

Lemma search_end_reaches_1000 :
  exists reached,
    net_final_with_monthly pow_twelfth_tangent 0 1 0 0 0 (1 * 12)
      (py_max (1000 / inject_Z (1 * 12) * 2) 5000) = Ok reached
    /\ 1000 <= reached.
Proof.
  eexists. split; [vm_compute; reflexivity|].
  apply Qle_bool_iff. vm_compute. reflexivity.
Defined.

Lemma required_constant_reaches_goal_witness :
  (0 < 1)%Z /\ 0 <= 0 /\ 0 <= 0 <= 1
  /\ (exists reached,
        net_final_with_monthly pow_twelfth_tangent 0 1 0 0 0 (1 * 12)
          (py_max (1000 / inject_Z (1 * 12) * 2) 5000) = Ok reached
        /\ 1000 <= reached)
  /\ exists monthly net,
       required_constant_monthly_for_goal pow_twelfth_tangent 0 1000 1 0 0 0
       = Ok monthly
       /\ net_final_with_monthly pow_twelfth_tangent 0 1 0 0 0 (1 * 12)
            (inject_Z monthly) = Ok net
       /\ 1000 <= net.
Proof.
  assert (Hy : (0 < 1)%Z) by lia.
  assert (Ha : 0 <= 0) by lra.
  assert (Ht : 0 <= 0 <= 1) by (split; lra).
  split; [exact Hy|]. split; [exact Ha|]. split; [exact Ht|].
  split; [exact search_end_reaches_1000|].
  destruct search_end_reaches_1000 as (reached & Er & Hr).
  exact (required_constant_reaches_goal pow_twelfth_tangent 0 1000 1 0 0 0
           reached Hy Ha Ht Er Hr).
Defined.

Lemma required_constant_is_threshold_witness :
  (0 < 1)%Z /\ 0 <= 0 /\ 0 <= 0 <= 1
  /\ 1000 < inject_Z (1 * 12) * 2 ^ 39
  /\ (exists reached,
        net_final_with_monthly pow_twelfth_tangent 0 1 0 0 0 (1 * 12)
          (py_max (1000 / inject_Z (1 * 12) * 2) 5000) = Ok reached
        /\ 1000 <= reached)
  /\ exists monthly,
       required_constant_monthly_for_goal pow_twelfth_tangent 0 1000 1 0 0 0
       = Ok monthly
       /\ (monthly = 0%Z
           \/ exists net,
                net_final_with_monthly pow_twelfth_tangent 0 1 0 0 0 (1 * 12)
                  (inject_Z (monthly - 1)) = Ok net
                /\ net < 1000).
Proof.
  assert (Hy : (0 < 1)%Z) by lia.
  assert (Ha : 0 <= 0) by lra.
  assert (Ht : 0 <= 0 <= 1) by (split; lra).
  assert (Hs : 1000 < inject_Z (1 * 12) * 2 ^ 39) by reflexivity.
  split; [exact Hy|]. split; [exact Ha|]. split; [exact Ht|].
  split; [exact Hs|]. split; [exact search_end_reaches_1000|].
  destruct search_end_reaches_1000 as (reached & Er & Hr).
  exact (required_constant_is_threshold pow_twelfth_tangent 0 1000 1 0 0 0
           reached Hy Ha Ht Hs Er Hr).
Defined.

Lemma required_growing_within_search_range_witness :
  (0 < 1)%Z /\ 0 <= 0 /\ 0 <= 0 <= 1
  /\ exists final_monthly_aprox resumen_anual,
       required_growing_monthlies_for_goal pow_twelfth_tangent 0 10000 1 0
         100 0 0 = Ok (final_monthly_aprox, resumen_anual)
       /\ (0 <= final_monthly_aprox)%Z
       /\ inject_Z final_monthly_aprox <= py_max (100 * 10) 5000 + (1 # 2).
Proof.
  assert (Hy : (0 < 1)%Z) by lia.
  assert (Ha : 0 <= 0) by lra.
  assert (Ht : 0 <= 0 <= 1) by (split; lra).
  split; [exact Hy|]. split; [exact Ha|]. split; [exact Ht|].
  exact (required_growing_within_search_range pow_twelfth_tangent 0 10000 1
           0 100 0 0 Hy Ha Ht).
Defined.

Lemma resumen_anual_covers_the_years_witness :
  (0 < 2)%Z /\ 0 <= 0 /\ 0 <= 0 <= 1
  /\ exists final_monthly_aprox resumen_anual,
       required_growing_monthlies_for_goal pow_twelfth_tangent 0 10000 2 0
         100 0 0 = Ok (final_monthly_aprox, resumen_anual)
       /\ Z.of_nat (List.length resumen_anual) = 2%Z
       /\ (forall i, (i < List.length resumen_anual)%nat ->
             dict_get (nth i resumen_anual []) "year"
             = Ok (Z.of_nat i + 1)%Z)
       /\ dict_get (nth 0 resumen_anual []) "start" = Ok (py_round 100)
       /\ dict_get (last resumen_anual []) "end" = Ok final_monthly_aprox.
Proof.
  assert (Hy : (0 < 2)%Z) by lia.
  assert (Ha : 0 <= 0) by lra.
  assert (Ht : 0 <= 0 <= 1) by (split; lra).
  split; [exact Hy|]. split; [exact Ha|]. split; [exact Ht|].
  exact (resumen_anual_covers_the_years pow_twelfth_tangent 0 10000 2 0 100
           0 0 Hy Ha Ht).
Defined.

Lemma resumen_anual_entries_ordered_witness :
  (0 < 2)%Z /\ 0 <= 0 /\ 0 <= 0 <= 1
  /\ exists final_monthly_aprox resumen_anual,
       required_growing_monthlies_for_goal pow_twelfth_tangent 0 10000 2 0
         100 0 0 = Ok (final_monthly_aprox, resumen_anual)
       /\ Forall
            (fun entry =>
               exists s e a,
                 dict_get entry "start" = Ok s /\ dict_get entry "end" = Ok e
                 /\ dict_get entry "avg" = Ok a
                 /\ (Z.min s e <= a <= Z.max s e)%Z
                 /\ (100 <= inject_Z final_monthly_aprox -> (s <= e)%Z)
                 /\ (inject_Z final_monthly_aprox <= 100 -> (e <= s)%Z))
            resumen_anual.
Proof.
  assert (Hy : (0 < 2)%Z) by lia.
  assert (Ha : 0 <= 0) by lra.
  assert (Ht : 0 <= 0 <= 1) by (split; lra).
  split; [exact Hy|]. split; [exact Ha|]. split; [exact Ht|].
  exact (resumen_anual_entries_ordered pow_twelfth_tangent 0 10000 2 0 100
           0 0 Hy Ha Ht).
Defined.

(** ** The objectives keep the order, and what the solvers return *)

Lemma net_of_tax_monotone (final1 principal1 final2 principal2 tax_rate : Q) :
  0 <= tax_rate <= 1 -> final1 <= final2 -> principal1 <= principal2 ->
  final1 - tax_rate * py_max 0 (final1 - principal1)
  <= final2 - tax_rate * py_max 0 (final2 - principal2).
Proof.
  intros [T0 T1] HF HP.
  pose proof (py_max_ge_left 0 (final1 - principal1)) as A0.
  pose proof (py_max_ge_right 0 (final1 - principal1)) as A1.
  set (g1 := py_max 0 (final1 - principal1)) in *.
  assert (U : final1 - tax_rate * g1
              <= (1 - tax_rate) * final1 + tax_rate * principal1).
  { assert (0 <= tax_rate * (g1 - (final1 - principal1)))
      by (apply Qmult_le_0_compat; lra).
    lra. }
  assert (V : final1 - tax_rate * g1 <= final1).
  { assert (0 <= tax_rate * g1) by (apply Qmult_le_0_compat; lra). lra. }
  destruct (py_max_cases_tax final2 principal2) as [[Hx ->]|[Hx ->]].
  - assert (0 <= (1 - tax_rate) * (final2 - final1))
      by (apply Qmult_le_0_compat; lra).
    assert (0 <= tax_rate * (principal2 - principal1))
      by (apply Qmult_le_0_compat; lra).
    lra.
  - lra.
Qed.

Section SolverOrder.

Variable pow_twelfth : Q -> Q.
Hypothesis pow_twelfth_ge_one : forall x, 1 <= x -> 1 <= pow_twelfth x.

Lemma net_final_with_monthly_monotone current_total years annual_return
    extra_savings tax_rate C1 C2 :
  (0 < years)%Z -> 0 <= annual_return -> 0 <= tax_rate <= 1 -> C1 <= C2 ->
  exists net1 net2,
    net_final_with_monthly pow_twelfth current_total years annual_return
      extra_savings tax_rate (years * 12) C1 = Ok net1
    /\ net_final_with_monthly pow_twelfth current_total years annual_return
         extra_savings tax_rate (years * 12) C2 = Ok net2
    /\ net1 <= net2.
Proof.
  intros Hy Ha Ht HC. unfold net_final_with_monthly.
  rewrite !clamp_is_max, !simulate_constant_plan_ok by exact Hy.
  cbn [bind]. eexists _, _. split; [reflexivity|]. split; [reflexivity|].
  pose proof (py_round_monotone C1 C2 HC) as R.
  assert (I : inject_Z (Z.max 0 (py_round C1))
              <= inject_Z (Z.max 0 (py_round C2)))
    by (rewrite <- Zle_Qle; lia).
  apply net_of_tax_monotone; [exact Ht| |].
  - apply final_from_monotone.
    + pose proof (growth_ge_one pow_twelfth pow_twelfth_ge_one annual_return
                    Ha). lra.
    + intros _. exact I.
    + lra.
  - assert (inject_Z (Z.max 0 (py_round C1) * (years * 12))
            <= inject_Z (Z.max 0 (py_round C2) * (years * 12)))
      by (rewrite <- Zle_Qle; nia).
    lra.
Qed.

(** X18: for a positive number of years, an annual return that is not
    negative and a tax rate between 0 and 1, both objectives keep the order:
    a larger candidate never gives a smaller net final value. *)
Theorem net_final_monotone
    (current_total : Q) (years : Z)
    (annual_return extra_savings tax_rate : Q) :
  (0 < years)%Z -> 0 <= annual_return -> 0 <= tax_rate <= 1 ->
  (forall C1 C2, C1 <= C2 ->
     exists net1 net2,
       net_final_with_monthly pow_twelfth current_total years annual_return
         extra_savings tax_rate (years * 12) C1 = Ok net1
       /\ net_final_with_monthly pow_twelfth current_total years
            annual_return extra_savings tax_rate (years * 12) C2 = Ok net2
       /\ net1 <= net2)
  /\ (forall initial_monthly final1 final2, final1 <= final2 ->
        exists net1 net2,
          net_final_con_final_monthly pow_twelfth current_total years
            annual_return initial_monthly extra_savings tax_rate (years * 12)
            final1 = Ok net1
          /\ net_final_con_final_monthly pow_twelfth current_total years
               annual_return initial_monthly extra_savings tax_rate
               (years * 12) final2 = Ok net2
          /\ net1 <= net2).
Proof.
  intros Hy Ha Ht. split.
  - intros C1 C2 HC. now apply net_final_with_monthly_monotone.
  - intros i f1 f2 Hf. unfold net_final_con_final_monthly.
    rewrite !simulate_dca_ramp_ok by exact Hy. cbn [bind].
    eexists _, _. split; [reflexivity|]. split; [reflexivity|].
    apply net_of_tax_monotone; [exact Ht| |].
    + apply final_from_monotone_in.
      * pose proof (growth_ge_one pow_twelfth pow_twelfth_ge_one
                      annual_return Ha). lra.
      * intros m Hm. apply in_range in Hm.
        apply ramp_contribution_monotone; [|lra | exact Hf].
        apply ramp_weight_bounds; lia.
      * lra.
    + assert (M : 0 <= inject_Z (years * 12)).
      { change 0 with (inject_Z 0). rewrite <- Zle_Qle. lia. }
      assert (0 <= inject_Z (years * 12) * (f2 - f1))
        by (apply Qmult_le_0_compat; lra).
      assert (E : forall f,
                 inject_Z (years * 12) * (i + f) / 2
                 == (inject_Z (years * 12) * i
                     + inject_Z (years * 12) * f) * (1 # 2))
        by (intros f; field).
      rewrite !E. lra.
Qed.

(** X19: on valid inputs with a goal below [months * 2 ^ 39] that the upper
    end of the search reaches, the monthly amount returned reaches the goal
    and every monthly amount from 0 up to, but not including, it misses the
    goal: it is the least whole amount that reaches the goal. *)
Theorem required_constant_is_minimal
    (current_total objetivo_final : Q) (years : Z)
    (annual_return extra_savings tax_rate reached : Q) :
  (0 < years)%Z -> 0 <= annual_return -> 0 <= tax_rate <= 1 ->
  objetivo_final < inject_Z (years * 12) * 2 ^ 39 ->
  net_final_with_monthly pow_twelfth current_total years annual_return
    extra_savings tax_rate (years * 12)
    (py_max (objetivo_final / inject_Z (years * 12) * 2) 5000) = Ok reached ->
  objetivo_final <= reached ->
  exists monthly,
    required_constant_monthly_for_goal pow_twelfth current_total
      objetivo_final years annual_return extra_savings tax_rate = Ok monthly
    /\ (0 <= monthly)%Z
    /\ (exists net,
          net_final_with_monthly pow_twelfth current_total years
            annual_return extra_savings tax_rate (years * 12)
            (inject_Z monthly) = Ok net
          /\ objetivo_final <= net)
    /\ forall smaller, (0 <= smaller < monthly)%Z ->
         exists net,
           net_final_with_monthly pow_twelfth current_total years
             annual_return extra_savings tax_rate (years * 12)
             (inject_Z smaller) = Ok net
           /\ net < objetivo_final.
Proof.
  intros Hy Ha Ht Hsmall Hr Hreach.
  set (f := net_final_with_monthly pow_twelfth current_total years
              annual_return extra_savings tax_rate (years * 12)) in *.
  set (high0 := py_max (objetivo_final / inject_Z (years * 12) * 2) 5000) in *.
  assert (Hb : 0 <= high0) by apply search_bound_nonneg.
  assert (Hh : high0 < 2 ^ 40).
  { assert (M : 0 < inject_Z (years * 12)).
    { change 0 with (inject_Z 0). rewrite <- Zlt_Qlt. lia. }
    assert (X : objetivo_final / inject_Z (years * 12) < 2 ^ 39)
      by (apply Qlt_shift_div_r; [exact M | lra]).
    assert (P : 2 ^ 40 == 2 * 2 ^ 39) by reflexivity.
    subst high0. unfold py_max.
    destruct (Qlt_bool _ 5000); [reflexivity | lra]. }
  assert (Below : forall x a k,
             f x = Ok a -> a < objetivo_final -> (k <= py_round x)%Z ->
             exists net, f (inject_Z k) = Ok net /\ net < objetivo_final).
  { intros x a k Ex Hx Hk.
    destruct (net_final_with_monthly_monotone current_total years
                annual_return extra_savings tax_rate (inject_Z k)
                (inject_Z (py_round x)) Hy Ha Ht) as (n1 & n2 & E1 & E2 & Hn).
    { rewrite <- Zle_Qle. exact Hk. }
    fold f in E1, E2. subst f.
    rewrite net_final_with_monthly_rounds in E2. rewrite Ex in E2.
    injection E2 as <-. exists n1. split; [exact E1 | lra]. }
  destruct (required_constant_result pow_twelfth current_total objetivo_final
              years annual_return extra_savings tax_rate Hy Ha Ht)
    as (net0 & E0 & [[G ->]|(G & l & h & Eb & ->)]).
  { exists 0%Z. split; [reflexivity|]. split; [lia|]. split.
    - exists net0. split; [exact E0 | exact G].
    - intros k Hk. lia. }
  fold f in E0, Eb. fold high0 in Eb.
  destruct (bisection_bracket f objetivo_final 40 0 high0
              (fun x => net_final_with_monthly_ok pow_twelfth current_total
                          years annual_return extra_savings tax_rate
                          (years * 12) x Hy) Hb)
    as (l' & h' & Eb' & L1 & L2 & L3 & W & L & H).
  rewrite Eb in Eb'. injection Eb' as <- <-.
  assert (Fl : exists a, f l = Ok a /\ a < objetivo_final).
  { destruct L as [->|L]; [eauto | exact L]. }
  assert (Fh : exists b, f h = Ok b /\ objetivo_final <= b).
  { destruct H as [->|H]; [eauto | exact H]. }
  destruct Fl as (a & Ea & Hlow). destruct Fh as (b & Eh & Hhigh).
  assert (Ne : py_round l <> py_round h).
  { intros E.
    assert (C : f l = f h).
    { subst f. rewrite <- (net_final_with_monthly_rounds _ _ _ _ _ _ _ l),
        <- (net_final_with_monthly_rounds _ _ _ _ _ _ _ h), E. reflexivity. }
    rewrite Ea, Eh in C. injection C as ->. lra. }
  assert (Wd : h - l < 1).
  { change (Z.of_nat 40) with 40%Z in W.
    assert (P0 : 0 < 2 ^ 40) by reflexivity.
    set (P := 2 ^ 40) in *.
    destruct (Qlt_le_dec (h - l) 1) as [Y|Y]; [exact Y|].
    assert (P <= (h - l) * P).
    { setoid_replace P with (1 * P) at 1 by ring.
      apply Qmult_le_compat_r; lra. }
    lra. }
  pose proof (py_round_monotone l h L2) as Mo.
  pose proof (py_round_close l h L2 Wd) as Cl.
  exists (py_round h). split; [reflexivity|].
  split; [apply py_round_nonneg; lra|]. split.
  - exists b. split; [|exact Hhigh].
    subst f. rewrite net_final_with_monthly_rounds. exact Eh.
  - intros k Hk. apply (Below l a k Ea Hlow). lia.
Qed.

End SolverOrder.

Section GrowingBracket.

Variable pow_twelfth : Q -> Q.

(** X20: on valid inputs, when a final contribution of 0 misses the goal and
    the upper end of the search reaches it, the amount the growing solver
    returns is the rounded midpoint of two candidates, one missing and one
    reaching the goal, that lie [max(initial_monthly * 10, 5000) / 2 ^ 30]
    apart. *)
Theorem required_growing_brackets_goal
    (current_total objetivo_final : Q) (years : Z)
    (annual_return initial_monthly extra_savings tax_rate missed reached : Q) :
  (0 < years)%Z -> 0 <= annual_return -> 0 <= tax_rate <= 1 ->
  let f := net_final_con_final_monthly pow_twelfth current_total years
             annual_return initial_monthly extra_savings tax_rate
             (years * 12) in
  let high0 := py_max (initial_monthly * 10) 5000 in
  f 0 = Ok missed -> missed < objetivo_final ->
  f high0 = Ok reached -> objetivo_final <= reached ->
  exists final_monthly_aprox resumen_anual below above,
    required_growing_monthlies_for_goal pow_twelfth current_total
      objetivo_final years annual_return initial_monthly extra_savings
      tax_rate = Ok (final_monthly_aprox, resumen_anual)
    /\ (exists net, f below = Ok net /\ net < objetivo_final)
    /\ (exists net, f above = Ok net /\ objetivo_final <= net)
    /\ below <= above
    /\ (above - below) * 2 ^ 30 == high0
    /\ final_monthly_aprox = py_round ((below + above) / 2).
Proof.
  intros Hy Ha [Ht0 Ht1] f high0 E0 H0 E1 H1.
  unfold required_growing_monthlies_for_goal.
  destruct (Z.leb_spec years 0) as [H|_]; [lia|].
  rewrite (proj2 (Qlt_bool_false_iff annual_return 0) Ha).
  rewrite (proj2 (Qle_bool_iff 0 tax_rate) Ht0).
  rewrite (proj2 (Qle_bool_iff tax_rate 1) Ht1).
  cbn [andb negb]. fold f. fold high0.
  destruct (bisection_bracket f objetivo_final 30 0 high0
              (fun x => net_final_con_final_monthly_ok pow_twelfth
                          current_total years annual_return initial_monthly
                          extra_savings tax_rate (years * 12) x Hy)
              (search_bound_nonneg _))
    as (l & h & Eb & L1 & L2 & L3 & W & L & H).
  rewrite Eb. cbn [bind]. eexists _, _, l, h. split; [reflexivity|].
  split; [destruct L as [->|L]; [eauto | exact L]|].
  split; [destruct H as [->|H]; [eauto | exact H]|].
  split; [exact L2|]. split; [|reflexivity].
  change (Z.of_nat 30) with 30%Z in W. rewrite W. ring.
Qed.

End GrowingBracket.

Lemma net_final_monotone_witness :
  (forall x, 1 <= x -> 1 <= pow_twelfth_tangent x)
  /\ (0 < 1)%Z /\ 0 <= 5 # 100 /\ 0 <= 1 # 5 <= 1 /\ 100 <= 200
  /\ exists net1 net2,
       net_final_with_monthly pow_twelfth_tangent 1000 1 (5 # 100) 0 (1 # 5)
         (1 * 12) 100 = Ok net1
       /\ net_final_with_monthly pow_twelfth_tangent 1000 1 (5 # 100) 0
            (1 # 5) (1 * 12) 200 = Ok net2
       /\ net1 <= net2.
Proof.
  assert (Hy : (0 < 1)%Z) by lia.
  assert (Ha : 0 <= 5 # 100) by lra.
  assert (Ht : 0 <= 1 # 5 <= 1) by (split; lra).
  assert (HC : 100 <= 200) by lra.
  split; [exact pow_twelfth_tangent_ge_one|]. split; [exact Hy|].
  split; [exact Ha|]. split; [exact Ht|]. split; [exact HC|].
  exact (proj1 (net_final_monotone pow_twelfth_tangent
                  pow_twelfth_tangent_ge_one 1000 1 (5 # 100) 0 (1 # 5)
                  Hy Ha Ht) 100 200 HC).
Defined.

Lemma required_constant_is_minimal_witness :
  (forall x, 1 <= x -> 1 <= pow_twelfth_tangent x)
  /\ (0 < 1)%Z /\ 0 <= 0 /\ 0 <= 0 <= 1
  /\ 1000 < inject_Z (1 * 12) * 2 ^ 39
  /\ (exists reached,
        net_final_with_monthly pow_twelfth_tangent 0 1 0 0 0 (1 * 12)
          (py_max (1000 / inject_Z (1 * 12) * 2) 5000) = Ok reached
        /\ 1000 <= reached)
  /\ exists monthly,
       required_constant_monthly_for_goal pow_twelfth_tangent 0 1000 1 0 0 0
       = Ok monthly
       /\ (0 <= monthly)%Z
       /\ (exists net,
             net_final_with_monthly pow_twelfth_tangent 0 1 0 0 0 (1 * 12)
               (inject_Z monthly) = Ok net
             /\ 1000 <= net)
       /\ forall smaller, (0 <= smaller < monthly)%Z ->
            exists net,
              net_final_with_monthly pow_twelfth_tangent 0 1 0 0 0 (1 * 12)
                (inject_Z smaller) = Ok net
              /\ net < 1000.
Proof.
  assert (Hy : (0 < 1)%Z) by lia.
  assert (Ha : 0 <= 0) by lra.
  assert (Ht : 0 <= 0 <= 1) by (split; lra).
  assert (Hs : 1000 < inject_Z (1 * 12) * 2 ^ 39) by reflexivity.
  split; [exact pow_twelfth_tangent_ge_one|].
  split; [exact Hy|]. split; [exact Ha|]. split; [exact Ht|].
  split; [exact Hs|]. split; [exact search_end_reaches_1000|].
  destruct search_end_reaches_1000 as (reached & Er & Hr).
  exact (required_constant_is_minimal pow_twelfth_tangent
           pow_twelfth_tangent_ge_one 0 1000 1 0 0 0 reached
           Hy Ha Ht Hs Er Hr).
Defined.

Lemma growing_search_ends_bracket_10000 :
  exists missed reached,
    net_final_con_final_monthly pow_twelfth_tangent 0 1 0 100 0 0 (1 * 12) 0
    = Ok missed
    /\ missed < 10000
    /\ net_final_con_final_monthly pow_twelfth_tangent 0 1 0 100 0 0 (1 * 12)
         (py_max (100 * 10) 5000) = Ok reached
    /\ 10000 <= reached.
Proof.
  eexists _, _. split; [vm_compute; reflexivity|]. split.
  - apply Qlt_bool_iff. vm_compute. reflexivity.
  - split; [vm_compute; reflexivity|].
    apply Qle_bool_iff. vm_compute. reflexivity.
Defined.

Lemma required_growing_brackets_goal_witness :
  (0 < 1)%Z /\ 0 <= 0 /\ 0 <= 0 <= 1
  /\ (exists missed reached,
        net_final_con_final_monthly pow_twelfth_tangent 0 1 0 100 0 0
          (1 * 12) 0 = Ok missed
        /\ missed < 10000
        /\ net_final_con_final_monthly pow_twelfth_tangent 0 1 0 100 0 0
             (1 * 12) (py_max (100 * 10) 5000) = Ok reached
        /\ 10000 <= reached)
  /\ exists final_monthly_aprox resumen_anual below above,
       required_growing_monthlies_for_goal pow_twelfth_tangent 0 10000 1 0
         100 0 0 = Ok (final_monthly_aprox, resumen_anual)
       /\ (exists net,
             net_final_con_final_monthly pow_twelfth_tangent 0 1 0 100 0 0
               (1 * 12) below = Ok net
             /\ net < 10000)
       /\ (exists net,
             net_final_con_final_monthly pow_twelfth_tangent 0 1 0 100 0 0
               (1 * 12) above = Ok net
             /\ 10000 <= net)
       /\ below <= above
       /\ (above - below) * 2 ^ 30 == py_max (100 * 10) 5000
       /\ final_monthly_aprox = py_round ((below + above) / 2).
Proof.
  assert (Hy : (0 < 1)%Z) by lia.
  assert (Ha : 0 <= 0) by lra.
  assert (Ht : 0 <= 0 <= 1) by (split; lra).
  split; [exact Hy|]. split; [exact Ha|]. split; [exact Ht|].
  split; [exact growing_search_ends_bracket_10000|].
  destruct growing_search_ends_bracket_10000
    as (missed & reached & E0 & H0 & E1 & H1).
  exact (required_growing_brackets_goal pow_twelfth_tangent 0 10000 1 0 100
           0 0 missed reached Hy Ha Ht E0 H0 E1 H1).
Defined.
